(** * The cache and the background task manager of the RFP automation backend

    A shallow embedding of [cache.py] (the TTL + LRU [MemoryCache] and the
    [cache_key] derivation) and of [tasks.py] (the [TaskManager]), with the
    properties of their specification stated and settled against the code.

    Conventions of the embedding.
    - Every reading of the clock ([time.time()], [datetime.utcnow()]) is an
      explicit argument of the operation that takes it; readings are points
      of a discrete time line ([Z]).
    - Python integers are unbounded, hence [Z].
    - A Python value is a [PyVal]; [None] is the constructor [VNone], so an
      [Optional] field that holds a value returned by user code is a [PyVal].
    - A [dict] whose iteration order the code depends on is an association
      list in insertion order; a [dict] that is only looked up by key is a
      [gmap].
    - An operation that can raise returns a [Res]. *)

From Stdlib Require Import ZArith Lia.
From stdpp Require Import base option list strings gmap sorting.

Local Open Scope Z_scope.

(** ** Python values and exceptions *)

#[warnings="-register-all"]
Inductive PyVal : Type :=
  | VNone
  | VBool (b : bool)
  | VInt (z : Z)
  | VStr (s : string)
  | VList (l : list PyVal)
  | VTuple (l : list PyVal)
  | VDict (d : list (string * PyVal)).

Definition is_None (v : PyVal) : bool :=
  match v with VNone => true | _ => false end.

(** An exception object, as far as the code under study looks at it: whether
    [except Exception] matches it (false for [BaseException]s such as
    [asyncio.CancelledError], [KeyboardInterrupt], [SystemExit]) and what
    [str(e)] yields. *)
Record PyExc : Type := mkExc {
  exc_class : string;
  is_Exception : bool;
  exc_str : string
}.

Definition CancelledError : PyExc := mkExc "CancelledError" false "".
Definition KeyError (k : string) : PyExc := mkExc "KeyError" true k.
Definition NameError (n : string) : PyExc :=
  mkExc "NameError" true ("name '" +:+ n +:+ "' is not defined").

Inductive Res (A : Type) : Type :=
  | Ok (a : A)
  | Raised (e : PyExc).
Arguments Ok {A} a.
Arguments Raised {A} e.

(** ** Insertion-ordered dictionaries with string keys *)

Section dict.
Context {V : Type}.
Implicit Types (k : string) (v : V) (d : list (string * V)).

(** [d.get(k)] *)
Fixpoint dict_get k d : option V :=
  match d with
  | [] => None
  | (k', v') :: d' => if decide (k' = k) then Some v' else dict_get k d'
  end.

(** [k in d] *)
Definition dict_mem k d : bool := bool_decide (is_Some (dict_get k d)).

(** [d[k] = v]: an existing key keeps its place, a new key goes last. *)
Fixpoint dict_set k v d : list (string * V) :=
  match d with
  | [] => [(k, v)]
  | (k', v') :: d' =>
      if decide (k' = k) then (k, v) :: d' else (k', v') :: dict_set k v d'
  end.

(** [del d[k]] *)
Definition dict_del k d : list (string * V) :=
  filter (λ p, p.1 ≠ k) d.

(** Well-formedness of the representation: a dict holds a key once. *)
Definition dict_wf d : Prop := NoDup d.*1.
End dict.

(** ** Python built-ins used by the cache *)

(** [a or b] for [a : Optional[int]]: the falsy values are [None] and [0]. *)
Definition py_or (a : option Z) (b : Z) : Z :=
  match a with
  | Some x => if decide (x = 0) then b else x
  | None => b
  end.

(** [min(l, key=f)] scans left to right and replaces its candidate only by a
    strictly smaller one, so the first minimal element wins. *)
Fixpoint min_from {A} (f : A → Z) (best : A) (l : list A) : A :=
  match l with
  | [] => best
  | x :: l' => if decide (f x < f best) then min_from f x l'
               else min_from f best l'
  end.

(** ** The cache ([cache.py]) *)

Module Cache.

(** [class CacheEntry] *)
Record CacheEntry : Type := mkEntry {
  value : PyVal;
  created_at : Z;
  ttl_seconds : Z;
  access_count : Z;
  last_accessed : Z
}.

(** [CacheEntry.__init__], reading the clock as [now]. *)
Definition CacheEntry_init (v : PyVal) (ttl : Z) (now : Z) : CacheEntry :=
  mkEntry v now ttl 0 now.

Definition is_expired (e : CacheEntry) (now : Z) : bool :=
  bool_decide (now - created_at e > ttl_seconds e).

(** [CacheEntry.access]: the returned value and the entry as mutated. *)
Definition access (e : CacheEntry) (now : Z) : PyVal * CacheEntry :=
  (value e,
   mkEntry (value e) (created_at e) (ttl_seconds e) (access_count e + 1) now).

(** [self.stats], a dict with the three fixed keys. *)
Record Stats : Type := mkStats {
  hits : Z;
  misses : Z;
  evictions : Z
}.

(** [class MemoryCache] *)
Record MemoryCache : Type := mkCache {
  max_size : Z;
  default_ttl : Z;
  cache : list (string * CacheEntry);
  stats : Stats
}.

(** [MemoryCache.__init__] *)
Definition MemoryCache_init (max_size default_ttl : Z) : MemoryCache :=
  mkCache max_size default_ttl [] (mkStats 0 0 0).

Definition miss (s : Stats) : Stats :=
  mkStats (hits s) (misses s + 1) (evictions s).
Definition hit (s : Stats) : Stats :=
  mkStats (hits s + 1) (misses s) (evictions s).
Definition evicted (s : Stats) : Stats :=
  mkStats (hits s) (misses s) (evictions s + 1).

(** [MemoryCache.get]. [t_check] is the clock reading of [is_expired],
    [t_access] the later one of [access]. *)
Definition get (key : string) (t_check t_access : Z) (c : MemoryCache)
  : PyVal * MemoryCache :=
  match dict_get key (cache c) with
  | None =>
      (VNone, mkCache (max_size c) (default_ttl c) (cache c) (miss (stats c)))
  | Some entry =>
      if is_expired entry t_check then
        (VNone, mkCache (max_size c) (default_ttl c)
                        (dict_del key (cache c)) (miss (stats c)))
      else
        let '(v, entry') := access entry t_access in
        (v, mkCache (max_size c) (default_ttl c)
                    (dict_set key entry' (cache c)) (hit (stats c)))
  end.

(** The key function of the [min] in [_evict_lru]:
    [lambda k: self.cache[k].last_accessed]. The keys it is applied to come
    from the dict itself, so the lookup cannot fail. *)
Definition lru_rank (d : list (string * CacheEntry)) (k : string) : Z :=
  match dict_get k d with
  | Some e => last_accessed e
  | None => 0
  end.

(** [MemoryCache._evict_lru] *)
Definition _evict_lru (c : MemoryCache) : MemoryCache :=
  match (cache c).*1 with
  | [] => c
  | k0 :: ks =>
      let lru_key := min_from (lru_rank (cache c)) k0 ks in
      mkCache (max_size c) (default_ttl c)
              (dict_del lru_key (cache c)) (evicted (stats c))
  end.

(** [MemoryCache.set] *)
Definition set (key : string) (v : PyVal) (ttl_seconds : option Z) (now : Z)
    (c : MemoryCache) : MemoryCache :=
  let ttl := py_or ttl_seconds (default_ttl c) in
  let c1 :=
    if bool_decide (Z.of_nat (length (cache c)) >= max_size c)
       && negb (dict_mem key (cache c))
    then _evict_lru c else c in
  mkCache (max_size c1) (default_ttl c1)
          (dict_set key (CacheEntry_init v ttl now) (cache c1)) (stats c1).

(** [MemoryCache.delete] *)
Definition delete (key : string) (c : MemoryCache) : bool * MemoryCache :=
  if dict_mem key (cache c) then
    (true, mkCache (max_size c) (default_ttl c)
                   (dict_del key (cache c)) (stats c))
  else (false, c).

(** [MemoryCache.clear] *)
Definition clear (c : MemoryCache) : MemoryCache :=
  mkCache (max_size c) (default_ttl c) [] (stats c).

(** [MemoryCache.cleanup_expired]. Each entry is tested against a clock
    reading of its own: [clock i] is the reading taken for the [i]-th entry
    of the sweep. *)
Definition cleanup_expired (clock : nat → Z) (c : MemoryCache)
  : Z * MemoryCache :=
  let expired_keys :=
    (filter (λ p, is_expired p.1.2 p.2 = true)
            (imap (λ i p, (p, clock i)) (cache c))).*1.*1 in
  (Z.of_nat (length expired_keys),
   mkCache (max_size c) (default_ttl c)
           (foldl (λ d k, dict_del k d) (cache c) expired_keys) (stats c)).

(** The operations a caller can perform, and the caches they lead to. *)
Inductive op : Type :=
  | OpGet (key : string) (t_check t_access : Z)
  | OpSet (key : string) (v : PyVal) (ttl_seconds : option Z) (now : Z)
  | OpDelete (key : string)
  | OpClear
  | OpCleanupExpired (clock : nat → Z).

Definition run_op (c : MemoryCache) (o : op) : MemoryCache :=
  match o with
  | OpGet key t_check t_access => (get key t_check t_access c).2
  | OpSet key v ttl now => set key v ttl now c
  | OpDelete key => (delete key c).2
  | OpClear => clear c
  | OpCleanupExpired clock => (cleanup_expired clock c).2
  end.

Definition run (ops : list op) (c : MemoryCache) : MemoryCache :=
  foldl run_op c ops.

(** The representation invariant of a cache in use: the dict binds a key at
    most once and holds at most [max_size] entries. *)
Definition inv (c : MemoryCache) : Prop :=
  dict_wf (cache c) ∧ Z.of_nat (length (cache c)) ≤ max_size c.

(** *** Key derivation *)

(** The order [sorted] puts on the items of [kwargs]: tuples compare by their
    first components first, by code points. The names of a keyword mapping
    are distinct, so two items never tie and their values are never
    compared. *)
Definition items_le (p q : string * PyVal) : Prop := (p.1 ≤ q.1)%string.

#[global] Instance items_le_dec : RelDecision items_le.
Proof. intros p q. unfold items_le. apply _. Defined.

(** [sorted(kwargs.items())] *)
Definition sorted_items (kwargs : list (string * PyVal))
  : list (string * PyVal) :=
  merge_sort items_le kwargs.

Section cache_key.
(** The two library functions [cache_key] relies on:
    [json.dumps(., sort_keys=True, default=str)], which may raise, and
    [hashlib.md5(s.encode()).hexdigest()]. *)
Variable json_dumps : PyVal → Res string.
Variable md5_hexdigest : string → string.

(** [cache_key(prefix, *args, **kwargs)]; [kwargs] lists the keyword
    arguments in the order of the call. *)
Definition cache_key (prefix : string) (args : list PyVal)
    (kwargs : list (string * PyVal)) : Res string :=
  let key_data :=
    VDict [("args", VTuple args);
           ("kwargs",
            VList ((λ p, VTuple [VStr p.1; p.2]) <$> sorted_items kwargs))] in
  match json_dumps key_data with
  | Raised e => Raised e
  | Ok dumped => Ok (prefix +:+ ":" +:+ md5_hexdigest dumped)
  end.
End cache_key.

End Cache.

(** ** The background task manager ([tasks.py]) *)

Module Tasks.

(** [class TaskStatus(Enum)] *)
Inductive TaskStatus : Type := PENDING | RUNNING | COMPLETED | FAILED.

#[global] Instance TaskStatus_eq_dec : EqDecision TaskStatus.
Proof. solve_decision. Defined.

(** [class Task]. [datetime] values are points of the time line, counted in
    microseconds; [result] holds what the work returned, which may be [None];
    [progress] is [0.0] or [100.0]. *)
Record Task : Type := mkTask {
  id : string;
  name : string;
  status : TaskStatus;
  created_at : Z;
  started_at : option Z;
  completed_at : option Z;
  result : PyVal;
  error : option string;
  progress : Z
}.

(** The unit of work, [func] applied to its arguments, as [_run_task]
    observes it: it returns a value, raises, or suspends at an [await]. A
    suspended unit is later resumed either normally ([resumed]) or with
    [CancelledError] thrown in at the suspension point ([cancelled]), where
    the unit may let the error pass ([Raise CancelledError]) or intercept it
    and go on. A function that is not a coroutine function cannot suspend.
    The unit is assumed not to call back into the task manager. *)
Inductive Work : Type :=
  | Return (v : PyVal)
  | Raise (e : PyExc)
  | Await (resumed cancelled : Work).

(** The state of the coroutine [_run_task] of one task, which an
    [asyncio.Task] drives, and the [asyncio.Task] itself with its pending
    cancellation request. *)
Inductive Coro : Type :=
  | NotStarted (func : Work)
  | Suspended (resumed cancelled : Work)
  | Finished.

Record Handle : Type := mkHandle {
  coro : Coro;
  must_cancel : bool
}.

(** [class TaskManager] *)
Record TaskManager : Type := mkManager {
  tasks : gmap string Task;
  running_tasks : gmap string Handle
}.

(** [TaskManager.__init__] *)
Definition TaskManager_init : TaskManager := mkManager ∅ ∅.

(** [TaskManager.create_task]. [task_id] is the value drawn by
    [uuid.uuid4()], [now] the reading of [datetime.utcnow()]. The call is
    made on the running event loop, so [asyncio.create_task] succeeds; the
    coroutine does not start before the loop next runs it. *)
Definition create_task (task_id name : string) (func : Work) (now : Z)
    (m : TaskManager) : string * TaskManager :=
  let task := mkTask task_id name PENDING now None None VNone None 0 in
  (task_id,
   mkManager (<[task_id := task]> (tasks m))
             (<[task_id := mkHandle (NotStarted func) false]>
                (running_tasks m))).

(** [TaskManager.create_task] with the outcome of its scheduling step made
    explicit. The record is stored first; then the call of [self._run_task]
    and [asyncio.create_task] either succeed, and the handle is registered,
    or raise ([TypeError] for a keyword argument named [task_id],
    [RuntimeError] where no event loop is running), and the call ends
    there: the record stays, PENDING, and nothing is registered. *)
Definition create_task_with (schedule : Res unit) (task_id name : string)
    (func : Work) (now : Z) (m : TaskManager) : Res string * TaskManager :=
  let task := mkTask task_id name PENDING now None None VNone None 0 in
  let stored := mkManager (<[task_id := task]> (tasks m)) (running_tasks m) in
  match schedule with
  | Ok _ =>
      (Ok task_id,
       mkManager (tasks stored)
                 (<[task_id := mkHandle (NotStarted func) false]>
                    (running_tasks stored)))
  | Raised e => (Raised e, stored)
  end.

(** The three groups of assignments to the [Task] record. *)
Definition mark_running (now : Z) (t : Task) : Task :=
  mkTask (id t) (name t) RUNNING (created_at t) (Some now) (completed_at t)
         (result t) (error t) (progress t).

Definition mark_completed (v : PyVal) (now : Z) (t : Task) : Task :=
  mkTask (id t) (name t) COMPLETED (created_at t) (started_at t) (Some now)
         v (error t) 100.

Definition mark_failed (msg : string) (now : Z) (t : Task) : Task :=
  mkTask (id t) (name t) FAILED (created_at t) (started_at t) (Some now)
         (result t) (Some msg) (progress t).

(** What one turn of the event loop on a task amounts to. [Escaped e]: the
    exception [e] left [_run_task] and ended up in the [asyncio.Task]. *)
Inductive StepOutcome : Type :=
  | Yielded
  | Returned
  | Escaped (e : PyExc).

(** The body of [_run_task] from the point where the work yields its next
    observation: the success branch, the [except Exception] branch, and the
    [finally] block, which runs whenever the coroutine ends. The record is
    reached through the reference [task] taken on entry; no operation ever
    removes a record from [self.tasks], so that is the record bound to
    [task_id]. *)
Definition settle (task_id : string) (w : Work) (now : Z) (m : TaskManager)
  : StepOutcome * TaskManager :=
  match w with
  | Return v =>
      (Returned,
       mkManager (alter (mark_completed v now) task_id (tasks m))
                 (delete task_id (running_tasks m)))
  | Raise e =>
      if is_Exception e then
        (Returned,
         mkManager (alter (mark_failed (exc_str e) now) task_id (tasks m))
                   (delete task_id (running_tasks m)))
      else
        (Escaped e, mkManager (tasks m) (delete task_id (running_tasks m)))
  | Await resumed cancelled =>
      (Yielded,
       mkManager (tasks m)
                 (<[task_id := mkHandle (Suspended resumed cancelled) false]>
                    (running_tasks m)))
  end.

(** One turn of the event loop on the task registered under [task_id]:
    [_run_task] runs from where it stands to its next suspension or to its
    end. [t_start] is the clock reading for [started_at], [t_end] the one for
    [completed_at]. [None]: there is nothing to run under that id. *)
Definition run_step (task_id : string) (t_start t_end : Z) (m : TaskManager)
  : option (StepOutcome * TaskManager) :=
  match running_tasks m !! task_id with
  | None => None
  | Some h =>
      match coro h with
      | Finished => None
      | NotStarted func =>
          if must_cancel h then
            Some (Escaped CancelledError,
                  mkManager (tasks m)
                            (<[task_id := mkHandle Finished false]>
                               (running_tasks m)))
          else
            match tasks m !! task_id with
            | None =>
                Some (Escaped (KeyError task_id),
                      mkManager (tasks m)
                                (<[task_id := mkHandle Finished false]>
                                   (running_tasks m)))
            | Some _ =>
                Some (settle task_id func t_end
                        (mkManager
                           (alter (mark_running t_start) task_id (tasks m))
                           (running_tasks m)))
            end
      | Suspended resumed cancelled =>
          Some (settle task_id (if must_cancel h then cancelled else resumed)
                       t_end m)
      end
  end.

(** [TaskManager.get_task] and [TaskManager.get_all_tasks] *)
Definition get_task (task_id : string) (m : TaskManager) : option Task :=
  tasks m !! task_id.

Definition get_all_tasks (m : TaskManager) : gmap string Task := tasks m.

(** [TaskManager.cancel_task]; [h.cancel()] records the request in the
    handle. *)
Definition cancel_task (task_id : string) (now : Z) (m : TaskManager)
  : Res (bool * TaskManager) :=
  match running_tasks m !! task_id with
  | None => Ok (false, m)
  | Some h =>
      match tasks m !! task_id with
      | None => Raised (KeyError task_id)
      | Some task =>
          if decide (status task = RUNNING) then
            Ok (true,
                mkManager
                  (<[task_id := mark_failed "Task cancelled" now task]>
                     (tasks m))
                  (<[task_id := mkHandle (coro h) true]> (running_tasks m)))
          else Ok (false, m)
      end
  end.

(** The names bound in the namespace of the module [tasks.py] by its imports
    and its top-level definitions. ([timedelta] is no built-in either.) *)
Definition module_globals : list string :=
  ["asyncio"; "Dict"; "Any"; "Optional"; "Callable"; "datetime"; "uuid";
   "logging"; "dataclass"; "Enum"; "logger"; "TaskStatus"; "Task";
   "TaskManager"; "task_manager"; "generate_rfp_report_task";
   "send_notification_task"; "process_rfp_scan_task"].

(** Looking a global name up when the function body reaches it. *)
Definition load_global (globals : list string) (n : string) : Res unit :=
  if decide (n ∈ globals) then Ok tt else Raised (NameError n).

Definition microseconds_per_hour : Z := 3600000000.

Definition is_terminal (s : TaskStatus) : bool :=
  match s with COMPLETED | FAILED => true | _ => false end.

(** The test of the loop in [cleanup_old_tasks]. *)
Definition is_old (cutoff_time : Z) (t : Task) : bool :=
  is_terminal (status t) &&
  match completed_at t with
  | Some done => bool_decide (done < cutoff_time)
  | None => false
  end.

(** [TaskManager.cleanup_old_tasks], run in a module namespace [globals]. *)
Definition cleanup_old_tasks_in (globals : list string) (max_age_hours : Z)
    (now : Z) (m : TaskManager) : Res TaskManager :=
  match load_global globals "timedelta" with
  | Raised e => Raised e
  | Ok _ =>
      let cutoff_time := now - max_age_hours * microseconds_per_hour in
      let tasks_to_remove :=
        (filter (λ p, is_old cutoff_time p.2 = true)
                (map_to_list (tasks m))).*1 in
      Ok (foldl (λ m task_id,
                   mkManager (delete task_id (tasks m))
                             (delete task_id (running_tasks m)))
                m tasks_to_remove)
  end.

(** [cleanup_old_tasks] as it runs in [tasks.py]. *)
Definition cleanup_old_tasks (max_age_hours : Z) (now : Z) (m : TaskManager)
  : Res TaskManager :=
  cleanup_old_tasks_in module_globals max_age_hours now m.

(** The states of a task manager in use: tasks are created, a creation
    fails at its scheduling step, the event loop runs any registered task
    for a turn, tasks are cancelled. Identifiers are fresh (the [uuid4]
    draws do not collide); [cleanup_old_tasks] is absent because it never
    changes the state; callers read the records they obtain from [get_task]
    and [get_all_tasks] without assigning to them. *)
Inductive reachable : TaskManager → Prop :=
  | reach_init : reachable TaskManager_init
  | reach_create m task_id name func now :
      reachable m → tasks m !! task_id = None →
      reachable (create_task task_id name func now m).2
  | reach_create_raises m task_id name func now e :
      reachable m → tasks m !! task_id = None →
      reachable (create_task_with (Raised e) task_id name func now m).2
  | reach_step m task_id t_start t_end o m' :
      reachable m → run_step task_id t_start t_end m = Some (o, m') →
      reachable m'
  | reach_cancel m task_id now b m' :
      reachable m → cancel_task task_id now m = Ok (b, m') →
      reachable m'.

(** Running a task alone: the number of suspensions of a unit of work that
    is never cancelled, how it ends, and the turns of the loop on it. *)
Fixpoint suspensions (w : Work) : nat :=
  match w with
  | Await resumed _ => S (suspensions resumed)
  | _ => 0%nat
  end.

Fixpoint completion (w : Work) : PyVal + PyExc :=
  match w with
  | Return v => inl v
  | Raise e => inr e
  | Await resumed _ => completion resumed
  end.

Fixpoint run_steps (task_id : string) (clock : list (Z * Z)) (m : TaskManager)
  : option (list StepOutcome * TaskManager) :=
  match clock with
  | [] => Some ([], m)
  | (t_start, t_end) :: clock' =>
      match run_step task_id t_start t_end m with
      | None => None
      | Some (o, m') =>
          match run_steps task_id clock' m' with
          | None => None
          | Some (os, m'') => Some (o :: os, m'')
          end
      end
  end.

(** A turn of the loop in which no exception left [_run_task]. *)
Definition contained (o : StepOutcome) : Prop :=
  match o with
  | Escaped _ => False
  | _ => True
  end.

(** What the code maintains about a record, about the handle registered
    for it, and about the manager as a whole. *)
Definition record_ok (t : Task) : Prop :=
  match status t with
  | PENDING | RUNNING => result t = VNone ∧ error t = None
  | COMPLETED => progress t = 100
  | FAILED => is_Some (error t) ∧ result t = VNone
  end.

Definition handle_ok (m : TaskManager) (task_id : string) (h : Handle)
  : Prop :=
  ∃ t, tasks m !! task_id = Some t ∧ result t = VNone ∧
       match coro h with
       | NotStarted _ => status t = PENDING ∧ must_cancel h = false
       | Suspended _ _ => status t = RUNNING ∨ status t = FAILED
       | Finished => False
       end.

Definition manager_ok (m : TaskManager) : Prop :=
  (∀ task_id t, tasks m !! task_id = Some t → record_ok t) ∧
  (∀ task_id h, running_tasks m !! task_id = Some h → handle_ok m task_id h).

End Tasks.

(** ** The rest of [cache.py]: the [cached] decorator and the helpers *)

Module CacheApi.
Import Cache.

(** What one call of a decorated function did: what it returned or raised,
    whether the decorated function ran, and the cache it left. *)
Record Served : Type := mkServed {
  outcome : Res PyVal;
  func_called : bool;
  cache_after : MemoryCache
}.

Section cached.
Variable json_dumps : PyVal → Res string.
Variable md5_hexdigest : string → string.

(** The [wrapper] that [cached(ttl_seconds, key_prefix)(func)] returns,
    applied to [args] and [kwargs] on the global cache [c]. [func_name] is
    [func.__name__]; [func] gives the outcome of the decorated function,
    which is assumed not to touch the cache itself; [t_check] and [t_access]
    are the clock readings of the [get], [t_set] the one of the [set]. *)
Definition cached_wrapper (ttl_seconds : option Z)
    (key_prefix func_name : string)
    (func : list PyVal → list (string * PyVal) → Res PyVal)
    (args : list PyVal) (kwargs : list (string * PyVal))
    (t_check t_access t_set : Z) (c : MemoryCache) : Served :=
  match cache_key json_dumps md5_hexdigest
          (if decide (key_prefix = "") then func_name else key_prefix)
          args kwargs with
  | Raised e => mkServed (Raised e) false c
  | Ok cache_key_str =>
      let '(cached_result, c1) := get cache_key_str t_check t_access c in
      if is_None cached_result then
        match func args kwargs with
        | Raised e => mkServed (Raised e) true c1
        | Ok result =>
            mkServed (Ok result) true
                     (set cache_key_str result ttl_seconds t_set c1)
        end
      else mkServed (Ok cached_result) false c1
  end.

(** [cache_llm_response(prompt, response, ttl)]; [ttl] defaults to 1800. *)
Definition cache_llm_response (prompt : string) (response : PyVal) (ttl : Z)
    (now : Z) (c : MemoryCache) : Res MemoryCache :=
  match cache_key json_dumps md5_hexdigest "llm" []
                  [("prompt", VStr prompt)] with
  | Raised e => Raised e
  | Ok key => Ok (set key response (Some ttl) now c)
  end.

(** [get_cached_llm_response(prompt)] *)
Definition get_cached_llm_response (prompt : string) (t_check t_access : Z)
    (c : MemoryCache) : Res (PyVal * MemoryCache) :=
  match cache_key json_dumps md5_hexdigest "llm" []
                  [("prompt", VStr prompt)] with
  | Raised e => Raised e
  | Ok key => Ok (get key t_check t_access c)
  end.
End cached.

(** [cache_user_session(user_id, session_data, ttl)]; [ttl] defaults to
    1800. *)
Definition cache_user_session (user_id : string) (session_data : PyVal)
    (ttl : Z) (now : Z) (c : MemoryCache) : MemoryCache :=
  set ("session:" +:+ user_id) session_data (Some ttl) now c.

(** [get_user_session(user_id)] *)
Definition get_user_session (user_id : string) (t_check t_access : Z)
    (c : MemoryCache) : PyVal * MemoryCache :=
  get ("session:" +:+ user_id) t_check t_access c.

(** [cache_catalog_products(products, ttl)]; [ttl] defaults to 3600. *)
Definition cache_catalog_products (products : PyVal) (ttl : Z) (now : Z)
    (c : MemoryCache) : MemoryCache :=
  set "catalog:products" products (Some ttl) now c.

(** [get_cached_catalog_products()] *)
Definition get_cached_catalog_products (t_check t_access : Z)
    (c : MemoryCache) : PyVal * MemoryCache :=
  get "catalog:products" t_check t_access c.

(** The test of the first loop of [invalidate_user_cache]. *)
Definition belongs_to_user (user_id key : string) : bool :=
  String.prefix ("session:" +:+ user_id) key
  || String.prefix ("user:" +:+ user_id) key.

(** [invalidate_user_cache(user_id)] *)
Definition invalidate_user_cache (user_id : string) (c : MemoryCache)
  : MemoryCache :=
  let keys_to_delete :=
    filter (λ key, belongs_to_user user_id key = true) (cache c).*1 in
  foldl (λ c key, (delete key c).2) c keys_to_delete.

(** The number of [get] calls in a run of operations, and of [set] calls. *)
Definition is_get (o : op) : bool :=
  match o with OpGet _ _ _ => true | _ => false end.

Definition is_set (o : op) : bool :=
  match o with OpSet _ _ _ _ => true | _ => false end.

Definition count_gets (ops : list op) : Z :=
  Z.of_nat (length (filter (λ o, is_get o = true) ops)).

Definition count_sets (ops : list op) : Z :=
  Z.of_nat (length (filter (λ o, is_set o = true) ops)).

End CacheApi.

(** ** The rest of [tasks.py]: transitions, timestamps, the example tasks *)

Module TasksApi.
Import Tasks.

(** One change of a task manager in use: a task is created under a fresh
    id, a creation fails at its scheduling step, the event loop runs a
    registered task for a turn, or a task is cancelled. *)
Inductive transition : TaskManager → TaskManager → Prop :=
  | tr_create m task_id name func now :
      tasks m !! task_id = None →
      transition m (create_task task_id name func now m).2
  | tr_create_raises m task_id name func now e :
      tasks m !! task_id = None →
      transition m (create_task_with (Raised e) task_id name func now m).2
  | tr_step m task_id t_start t_end o m' :
      run_step task_id t_start t_end m = Some (o, m') →
      transition m m'
  | tr_cancel m task_id now b m' :
      cancel_task task_id now m = Ok (b, m') →
      transition m m'.

(** The fields of a record that no operation assigns after creation. *)
Definition same_identity (t t' : Task) : Prop :=
  id t' = id t ∧ name t' = name t ∧ created_at t' = created_at t.

(** How the timestamps of a record go with its status. *)
Definition record_times_ok (t : Task) : Prop :=
  match status t with
  | PENDING => started_at t = None ∧ completed_at t = None
  | RUNNING => is_Some (started_at t) ∧ completed_at t = None
  | COMPLETED | FAILED => is_Some (started_at t) ∧ is_Some (completed_at t)
  end.

(** What holds of every record of a manager in use: it is filed under its
    own id, its timestamps go with its status, and while it is PENDING
    either nothing is registered for it (its creation failed at the
    scheduling step) or its coroutine is registered, has not started and
    has no cancellation pending. *)
Definition lifecycle_ok (m : TaskManager) : Prop :=
  ∀ k t, tasks m !! k = Some t →
    id t = k ∧
    record_times_ok t ∧
    (status t = PENDING →
     running_tasks m !! k = None ∨
     ∃ func, running_tasks m !! k = Some (mkHandle (NotStarted func) false)).

(** [n] times [await asyncio.sleep(...)], then [rest]. A sleep that is
    cancelled lets the [CancelledError] pass. *)
Fixpoint sleeps (n : nat) (rest : Work) : Work :=
  match n with
  | O => rest
  | S n' => Await (sleeps n' rest) (Raise CancelledError)
  end.

(** [generate_rfp_report_task(rfp_id, session_id)]: ten sleeps of one
    second, then the report record. [stamp] is
    [datetime.utcnow().isoformat()]. *)
Definition generate_rfp_report_task (rfp_id session_id stamp : string)
  : Work :=
  sleeps 10
    (Return (VDict
       [("rfp_id", VStr rfp_id);
        ("session_id", VStr session_id);
        ("report_path",
         VStr ("data/reports/" +:+ session_id +:+ "_" +:+ rfp_id +:+ ".pdf"));
        ("generated_at", VStr stamp)])).

(** [send_notification_task(user_email, message)] *)
Definition send_notification_task (user_email message stamp : string)
  : Work :=
  sleeps 1
    (Return (VDict
       [("email", VStr user_email);
        ("message", VStr message);
        ("sent_at", VStr stamp)])).

(** [process_rfp_scan_task(keywords, days_ahead)] *)
Definition process_rfp_scan_task (keywords : list PyVal) (days_ahead : Z)
    (stamp : string) : Work :=
  let mock_opportunities :=
    [VDict [("id", VStr "rfp_001");
            ("title", VStr "Data Center Cabling Project");
            ("client", VStr "Tech Corp");
            ("deadline", VStr "2024-02-15");
            ("value", VStr "$250K")]] in
  sleeps 1
    (Return (VDict
       [("keywords", VList keywords);
        ("days_ahead", VInt days_ahead);
        ("opportunities_found", VInt (Z.of_nat (length mock_opportunities)));
        ("opportunities", VList mock_opportunities);
        ("scanned_at", VStr stamp)])).

End TasksApi.

(** ** The rate limiter ([middleware.py]) *)

Module Middleware.

(** [class RateLimitMiddleware]: at most [calls] requests per [period] for
    each client; [clients] is the [defaultdict(list)] of the times of the
    requests let through. Times and [period] are counted in one unit. *)
Record RateLimitMiddleware : Type := mkLimiter {
  calls : Z;
  period : Z;
  clients : gmap string (list Z)
}.

(** [RateLimitMiddleware.__init__] *)
Definition RateLimitMiddleware_init (calls period : Z) : RateLimitMiddleware :=
  mkLimiter calls period ∅.

(** [self.clients[client_ip]], read from the [defaultdict]. *)
Definition requests_of (client_ip : string) (m : RateLimitMiddleware)
  : list Z :=
  default [] (clients m !! client_ip).

(** What [dispatch] decides before it hands the request on. *)
Inductive Admission : Type :=
  | RateLimited (status_code retry_after : Z)
  | Forwarded.

Definition is_forwarded (a : Admission) : bool :=
  match a with Forwarded => true | RateLimited _ _ => false end.

(** [RateLimitMiddleware.dispatch] up to [await call_next(request)], for the
    client address [client_ip] that [_get_client_ip] extracted and the
    clock reading [current_time]: old requests are dropped, the limit is
    checked, the request is recorded. *)
Definition dispatch (client_ip : string) (current_time : Z)
    (m : RateLimitMiddleware) : Admission * RateLimitMiddleware :=
  let recent :=
    filter (λ req_time, current_time - req_time < period m)
           (requests_of client_ip m) in
  if bool_decide (Z.of_nat (length recent) >= calls m) then
    (RateLimited 429 (period m),
     mkLimiter (calls m) (period m) (<[client_ip := recent]> (clients m)))
  else
    (Forwarded,
     mkLimiter (calls m) (period m)
               (<[client_ip := recent ++ [current_time]]> (clients m))).

(** The values of the headers [X-RateLimit-Limit], [X-RateLimit-Remaining]
    and [X-RateLimit-Reset] that [dispatch] adds once [call_next] has
    returned, computed from the state of that moment. *)
Record RateLimitHeaders : Type := mkHeaders {
  limit : Z;
  remaining : Z;
  reset : Z
}.

Definition rate_limit_headers (client_ip : string) (current_time : Z)
    (m : RateLimitMiddleware) : RateLimitHeaders :=
  mkHeaders (calls m)
            (calls m - Z.of_nat (length (requests_of client_ip m)))
            (current_time + period m).

(** A sequence of requests, each given by its client and its time, goes
    through [dispatch] in order of arrival: the log of the decisions and the
    state left. *)
Fixpoint serve (reqs : list (string * Z)) (m : RateLimitMiddleware)
  : list (string * Z * bool) * RateLimitMiddleware :=
  match reqs with
  | [] => ([], m)
  | (client_ip, current_time) :: rest =>
      let r := dispatch client_ip current_time m in
      let s := serve rest r.2 in
      ((client_ip, current_time, is_forwarded r.1) :: s.1, s.2)
  end.

(** The times of the requests of a client that a log shows as let
    through, and those of them that lie less than [period] before [t]. *)
Definition forwarded_times (client_ip : string)
    (log : list (string * Z * bool)) : list Z :=
  (filter (λ x, x.2 = true ∧ x.1.1 = client_ip) log).*1.*2.

Definition forwarded_in_window (period : Z) (client_ip : string) (t : Z)
    (log : list (string * Z * bool)) : list Z :=
  filter (λ req_time, t - req_time < period) (forwarded_times client_ip log).

(** The record of a client agrees with a log: seen through the window of
    any time not before the log's entries, the record holds the times of
    the client's requests that the log shows as let through. *)
Definition tracks (m : RateLimitMiddleware) (log : list (string * Z * bool))
  : Prop :=
  ∀ ip t, (∀ x, x ∈ log → x.1.2 ≤ t) →
    filter (λ req_time, t - req_time < period m) (requests_of ip m)
    = filter (λ req_time, t - req_time < period m) (forwarded_times ip log).

End Middleware.

(** ** Metrics and health checks ([monitoring.py]) *)

Module Metrics.

(** A step of a collector that may raise after it has changed the state. *)
Inductive Step (S : Type) : Type :=
  | Done (s : S)
  | Failed (e : PyExc) (s : S).
Arguments Done {S} s.
Arguments Failed {S} e s.

Definition ValueError (msg : string) : PyExc := mkExc "ValueError" true msg.

(** [deque(maxlen=n).append(x)] on a deque within its bound: the oldest
    element gives way when the deque is full, and a deque of bound 0 keeps
    nothing. *)
Definition deque_append {A} (maxlen : Z) (x : A) (d : list A) : list A :=
  drop (length (d ++ [x]) - Z.to_nat maxlen) (d ++ [x]).

Section metrics.
(** Python's [float], its addition and [float()], which is [0.0]. *)
Context {float : Type}.
Variable fadd : float → float → float.
Variable fzero : float.

(** [class MetricPoint] *)
Record MetricPoint : Type := mkPoint {
  timestamp : Z;
  value : float;
  tags : list (string * string)
}.

(** [class MetricsCollector]. The deques are created on first use by the
    [defaultdict], with [max_points] as their bound. *)
Record MetricsCollector : Type := mkCollector {
  max_points : Z;
  metrics : gmap string (list MetricPoint);
  counters : gmap string float;
  gauges : gmap string float
}.

(** [MetricsCollector.__init__] *)
Definition MetricsCollector_init (max_points : Z) : MetricsCollector :=
  mkCollector max_points ∅ ∅ ∅.

(** [MetricsCollector.record_metric]; [tags] is [None] or a dict, [now] the
    reading of [datetime.utcnow()]. A first use of a name creates its deque,
    which raises [ValueError] for a negative bound. *)
Definition record_metric (name : string) (v : float)
    (tags : option (list (string * string))) (now : Z)
    (m : MetricsCollector) : Step MetricsCollector :=
  let point := mkPoint now v (default [] tags) in
  match metrics m !! name with
  | Some series =>
      Done (mkCollector (max_points m)
              (<[name := deque_append (max_points m) point series]>
                 (metrics m))
              (counters m) (gauges m))
  | None =>
      if decide (max_points m < 0) then
        Failed (ValueError "maxlen must be non-negative") m
      else
        Done (mkCollector (max_points m)
                (<[name := deque_append (max_points m) point []]>
                   (metrics m))
                (counters m) (gauges m))
  end.

(** [MetricsCollector.increment_counter] *)
Definition increment_counter (name : string) (v : float) (now : Z)
    (m : MetricsCollector) : Step MetricsCollector :=
  let total := fadd (default fzero (counters m !! name)) v in
  record_metric (name +:+ "_total") total None now
    (mkCollector (max_points m) (metrics m)
                 (<[name := total]> (counters m)) (gauges m)).

(** [MetricsCollector.set_gauge] *)
Definition set_gauge (name : string) (v : float) (now : Z)
    (m : MetricsCollector) : Step MetricsCollector :=
  record_metric name v None now
    (mkCollector (max_points m) (metrics m) (counters m)
                 (<[name := v]> (gauges m))).

(** [MetricsCollector.get_metric]; a [since] that is given is a
    [datetime], which is never falsy. *)
Definition get_metric (name : string) (since : option Z)
    (m : MetricsCollector) : list MetricPoint :=
  let points := default [] (metrics m !! name) in
  match since with
  | Some s => filter (λ p, timestamp p >= s) points
  | None => points
  end.

(** [MetricsCollector.get_latest_value] *)
Definition get_latest_value (name : string) (m : MetricsCollector)
  : option float :=
  match metrics m !! name with
  | Some points => value <$> last points
  | None => None
  end.

(** The state a step leaves, and a run of recordings from a state. *)
Definition state_of (s : Step MetricsCollector) : MetricsCollector :=
  match s with Done m => m | Failed _ m => m end.

Definition record_all (recs : list (string * float * Z))
    (m : MetricsCollector) : MetricsCollector :=
  foldl (λ m r, state_of (record_metric r.1.1 r.1.2 None r.2 m)) m recs.

(** The points that a run of recordings made under a name. *)
Definition points_of (name : string) (recs : list (string * float * Z))
  : list MetricPoint :=
  (λ r, mkPoint r.2 r.1.2 []) <$> filter (λ r, r.1.1 = name) recs.

(** A run of increments of one counter. *)
Definition increment_all (name : string) (vs : list (float * Z))
    (m : MetricsCollector) : MetricsCollector :=
  foldl (λ m r, state_of (increment_counter name r.1 r.2 m)) m vs.
End metrics.

(** The last [n] elements of a list. *)
Definition keep_last {A} (n : nat) (l : list A) : list A :=
  drop (length l - n) l.

End Metrics.

Module Health.


(** What calling a registered check function gives: the dict it returns, or
    the exception it raises. A check that returns something other than a
    dict fails at [result.get] inside the [try]; it is a check that
    raises. *)
Definition CheckFunc : Type := Res (list (string * PyVal)).

(** [class HealthMonitor]: the registry of checks, in order of
    registration, and the time of the last run. *)
Record HealthMonitor : Type := mkMonitor {
  checks : list (string * CheckFunc);
  last_check_time : Z
}.

(** [HealthMonitor.register_check] *)
Definition register_check (name : string) (check_func : CheckFunc)
    (m : HealthMonitor) : HealthMonitor :=
  mkMonitor (dict_set name check_func (checks m)) (last_check_time m).







(** Python's [==] between a value and a string. *)
Definition py_eq_str (v : PyVal) (s : string) : bool :=
  match v with
  | VStr s' => bool_decide (s' = s)
  | _ => false
  end.


End Health.

(** ** Authentication ([auth.py]) *)

Module Auth.

(** The outcome of a dependency of a route: a value, or the [HTTPException]
    it raises. *)
Inductive Http (A : Type) : Type :=
  | Pass (a : A)
  | HTTPException (status_code : Z) (detail : string).
Arguments Pass {A} a.
Arguments HTTPException {A} status_code detail.

(** [class User]; the fields hold what the token's payload gave. *)
Record User : Type := mkUser {
  user_id : PyVal;
  email : PyVal;
  role : PyVal
}.

(** Python's truth value of a value. *)
Definition py_truthy (v : PyVal) : bool :=
  match v with
  | VNone => false
  | VBool b => b
  | VInt z => negb (z =? 0)
  | VStr s => negb (bool_decide (s = ""))
  | VList l => match l with [] => false | _ => true end
  | VTuple l => match l with [] => false | _ => true end
  | VDict d => match d with [] => false | _ => true end
  end.

Definition microseconds_per_minute : Z := 60000000.

Section jwt.
(** The library and the environment: [jwt.encode(., SECRET_KEY,
    algorithm=ALGORITHM)], the function [verify_token] built on
    [jwt.decode], and the setting [ACCESS_TOKEN_EXPIRE_MINUTES]. *)
Variable jwt_encode : list (string * PyVal) → string.
Variable verify_token : string → Http (list (string * PyVal)).
Variable ACCESS_TOKEN_EXPIRE_MINUTES : Z.

(** The payload that [create_access_token] hands to [jwt.encode]. A
    [timedelta] is a number of microseconds and is falsy when it is zero;
    the expiry is a point of the time line. *)
Definition token_payload (data : list (string * PyVal))
    (expires_delta : option Z) (now : Z) : list (string * PyVal) :=
  let expire :=
    match expires_delta with
    | Some delta =>
        if decide (delta = 0)
        then now + ACCESS_TOKEN_EXPIRE_MINUTES * microseconds_per_minute
        else now + delta
    | None => now + ACCESS_TOKEN_EXPIRE_MINUTES * microseconds_per_minute
    end in
  dict_set "exp" (VInt expire) data.

(** [create_access_token(data, expires_delta)] *)
Definition create_access_token (data : list (string * PyVal))
    (expires_delta : option Z) (now : Z) : string :=
  jwt_encode (token_payload data expires_delta now).

(** [get_current_user(credentials)], for the token in the credentials. *)
Definition get_current_user (token : string) : Http User :=
  match verify_token token with
  | HTTPException status_code detail => HTTPException status_code detail
  | Pass payload =>
      let user_id := default VNone (dict_get "sub" payload) in
      let email := default VNone (dict_get "email" payload) in
      let role := default (VStr "user") (dict_get "role" payload) in
      if py_truthy user_id then Pass (mkUser user_id email role)
      else HTTPException 401 "Invalid token payload"
  end.

(** [MOCK_USERS]: for each email the record of the account. *)
Record Account : Type := mkAccount {
  acc_user_id : string;
  acc_email : string;
  acc_role : string;
  acc_password : string
}.

Definition MOCK_USERS : list (string * Account) :=
  [("admin@example.com",
    mkAccount "admin_001" "admin@example.com" "admin" "admin123");
   ("user@example.com",
    mkAccount "user_001" "user@example.com" "user" "user123")].

(** [authenticate_user(email, password)] *)
Definition authenticate_user (email password : string) : option User :=
  match dict_get email MOCK_USERS with
  | Some user_data =>
      if decide (acc_password user_data = password)
      then Some (mkUser (VStr (acc_user_id user_data))
                        (VStr (acc_email user_data))
                        (VStr (acc_role user_data)))
      else None
  | None => None
  end.

(** [create_user_token(email, password)] *)
Definition create_user_token (email password : string) (now : Z)
  : option string :=
  match authenticate_user email password with
  | Some user =>
      Some (create_access_token
              [("sub", user_id user); ("email", Auth.email user);
               ("role", role user)] None now)
  | None => None
  end.
End jwt.

(** The [role_checker] that [require_role(required_role)] returns. *)
Definition require_role (required_role : string) (current_user : User)
  : Http User :=
  if negb (Health.py_eq_str (role current_user) required_role)
     && negb (Health.py_eq_str (role current_user) "admin")
  then HTTPException 403 "Insufficient permissions"
  else Pass current_user.

(** [require_admin()] *)
Definition require_admin : User → Http User := require_role "admin".

End Auth.
(** * Properties *)

(** ** Dictionaries *)

Section dict_facts.
Context {V : Type}.
Implicit Types (k : string) (v : V) (d : list (string * V)).

Lemma dict_get_None k d : dict_get k d = None ↔ k ∉ d.*1.
Proof.
  induction d as [|[k' v'] d IH]; simpl.
  - split; [intros _; apply not_elem_of_nil | done].
  - rewrite not_elem_of_cons. case_decide; subst.
    + split; [done | intros [? _]; done].
    + rewrite IH. split; [by intros ?; split | by intros [_ ?]].
Qed.

Lemma dict_get_Some_elem k v d : dict_get k d = Some v → (k, v) ∈ d.
Proof.
  induction d as [|[k' v'] d IH]; simpl; [done|].
  case_decide; subst.
  - intros Hv. injection Hv as Hv. subst. left.
  - intros H'. right. auto.
Qed.

Lemma dict_elem_get k v d : dict_wf d → (k, v) ∈ d → dict_get k d = Some v.
Proof.
  unfold dict_wf. induction d as [|[k' v'] d IH]; simpl.
  - intros _ H'. by apply elem_of_nil in H'.
  - rewrite NoDup_cons. intros [Hk Hd] Hin.
    apply elem_of_cons in Hin as [[= -> ->] | Hin].
    + by rewrite decide_True.
    + rewrite decide_False; [auto|].
      intros ->. apply Hk. apply list_elem_of_fmap. by exists (k, v).
Qed.

Lemma dict_mem_true k d : dict_mem k d = true ↔ k ∈ d.*1.
Proof.
  unfold dict_mem. rewrite bool_decide_eq_true.
  destruct (dict_get k d) eqn:E.
  - split; [intros _ | by eauto].
    apply dict_get_Some_elem in E. apply list_elem_of_fmap. by exists (k, v).
  - apply dict_get_None in E. split; [by intros [? ?] | done].
Qed.

Lemma dict_mem_false k d : dict_mem k d = false ↔ dict_get k d = None.
Proof.
  unfold dict_mem. rewrite bool_decide_eq_false.
  destruct (dict_get k d) as [v|]; split; try done.
  intros H'. destruct H'. by exists v.
Qed.

Lemma dict_get_set_eq k v d : dict_get k (dict_set k v d) = Some v.
Proof.
  induction d as [|[k' v'] d IH]; simpl.
  - by rewrite decide_True.
  - case_decide; subst; simpl.
    + by rewrite decide_True.
    + by rewrite decide_False.
Qed.

Lemma dict_get_set_ne k k' v d :
  k ≠ k' → dict_get k' (dict_set k v d) = dict_get k' d.
Proof.
  intros Hne. induction d as [|[k0 v0] d IH]; simpl.
  - by rewrite decide_False.
  - destruct (decide (k0 = k)) as [->|]; simpl.
    + by rewrite !decide_False.
    + by rewrite IH.
Qed.

Lemma dict_get_del_eq k d : dict_get k (dict_del k d) = None.
Proof.
  apply dict_get_None. unfold dict_del. intros Hin.
  apply list_elem_of_fmap in Hin as [[k' v'] [-> Hin]].
  apply list_elem_of_filter in Hin as [Hne _]. by apply Hne.
Qed.

Lemma dict_get_del_ne k k' d :
  k ≠ k' → dict_get k' (dict_del k d) = dict_get k' d.
Proof.
  intros Hne. unfold dict_del. induction d as [|[k0 v0] d IH]; [done|].
  rewrite filter_cons. simpl. destruct (decide (k0 ≠ k)) as [Hk|Hk]; simpl.
  - by rewrite IH.
  - apply dec_stable in Hk. subst. by rewrite decide_False.
Qed.

(** The keys after an assignment: unchanged for a key already there, the
    new key appended otherwise. *)
Lemma dict_set_keys k v d :
  (dict_set k v d).*1 = if dict_mem k d then d.*1 else d.*1 ++ [k].
Proof.
  induction d as [|[k' v'] d IH]; simpl; [done|].
  unfold dict_mem in *. simpl. destruct (decide (k' = k)) as [->|Hne]; simpl.
  - done.
  - change (list_fmap _ _ fst ?l) with (l.*1). rewrite IH.
    by destruct (bool_decide _).
Qed.

Lemma dict_set_length k v d :
  length (dict_set k v d) =
    if dict_mem k d then length d else S (length d).
Proof.
  rewrite <-(length_fmap fst (dict_set k v d)), dict_set_keys.
  destruct (dict_mem k d); rewrite ?length_app, ?length_fmap; simpl; lia.
Qed.

Lemma dict_set_wf k v d : dict_wf d → dict_wf (dict_set k v d).
Proof.
  unfold dict_wf. rewrite dict_set_keys. intros Hd.
  destruct (dict_mem k d) eqn:E; [done|].
  apply NoDup_app. split_and!; [done| |apply NoDup_singleton].
  intros x Hx ->%list_elem_of_singleton.
  apply dict_mem_true in Hx. congruence.
Qed.

Lemma dict_del_wf k d : dict_wf d → dict_wf (dict_del k d).
Proof.
  unfold dict_wf, dict_del. induction d as [|[k' v'] d IH]; [done|].
  rewrite filter_cons. simpl. rewrite NoDup_cons. intros [Hk Hd].
  destruct (decide (k' ≠ k)); simpl; [|auto].
  apply NoDup_cons. split; [|auto].
  intros Hin. apply Hk.
  apply list_elem_of_fmap in Hin as [[k0 v0] [-> Hin]].
  apply list_elem_of_filter in Hin as [_ Hin].
  apply list_elem_of_fmap. by exists (k0, v0).
Qed.

Lemma dict_del_absent k d : k ∉ d.*1 → dict_del k d = d.
Proof.
  unfold dict_del. induction d as [|[k' v'] d IH]; [done|].
  simpl. rewrite not_elem_of_cons. intros [Hne Hk].
  rewrite filter_cons. simpl. rewrite decide_True by done. by rewrite IH.
Qed.

(** Deleting a key that is present removes exactly one binding. *)
Lemma dict_del_length k d :
  dict_wf d → k ∈ d.*1 → S (length (dict_del k d)) = length d.
Proof.
  unfold dict_wf, dict_del. induction d as [|[k' v'] d IH]; simpl.
  - intros _ H'. by apply elem_of_nil in H'.
  - rewrite NoDup_cons. intros [Hk Hd] Hin. rewrite filter_cons. simpl.
    destruct (decide (k' ≠ k)) as [Hne|Heq]; simpl.
    + f_equal. apply IH; [done|].
      apply elem_of_cons in Hin as [->|]; done.
    + apply dec_stable in Heq. subst.
      fold (dict_del k d). by rewrite dict_del_absent.
Qed.
End dict_facts.

(** The position of the minimum: everything before it is strictly larger,
    everything after it is at least as large. *)
Lemma min_from_split {A} (f : A → Z) (l pre mid : list A) (best : A) :
  (∀ y, y ∈ pre → f best < f y) →
  (∀ y, y ∈ mid → f best ≤ f y) →
  ∃ before after,
    pre ++ best :: mid ++ l = before ++ min_from f best l :: after ∧
    (∀ y, y ∈ before → f (min_from f best l) < f y) ∧
    (∀ y, y ∈ after → f (min_from f best l) ≤ f y).
Proof.
  revert pre mid best.
  induction l as [|x l IH]; intros pre mid best Hpre Hmid; simpl.
  - exists pre, mid. by rewrite app_nil_r.
  - case_decide as Hlt.
    + destruct (IH (pre ++ best :: mid) [] x) as (before & after & E & Hb & Ha).
      * intros y [Hy|Hy]%elem_of_app.
        -- specialize (Hpre y Hy). lia.
        -- apply elem_of_cons in Hy as [->|Hy]; [done|].
           specialize (Hmid y Hy). lia.
      * intros y Hy. by apply elem_of_nil in Hy.
      * exists before, after. split; [|done].
        rewrite <-E. simpl. by rewrite <-app_assoc.
    + destruct (IH pre (mid ++ [x]) best) as (before & after & E & Hb & Ha).
      * done.
      * intros y [Hy|Hy]%elem_of_app; [auto|].
        apply list_elem_of_singleton in Hy as ->. lia.
      * exists before, after. split; [|done].
        rewrite <-E. by rewrite <-app_assoc.
Qed.


(** ** The cache *)

Module CacheSpec.
Import Cache.

(** *** Eviction *)

Lemma min_from_elem {A} (f : A → Z) (best : A) (l : list A) :
  min_from f best l ∈ best :: l.
Proof.
  destruct (min_from_split f l [] [] best) as (before & after & E & _).
  - intros y Hy. by apply elem_of_nil in Hy.
  - intros y Hy. by apply elem_of_nil in Hy.
  - simpl in E. rewrite E. apply elem_of_app. right. left.
Qed.

Lemma dict_del_app {V} (k : string) (d1 d2 : list (string * V)) :
  dict_del k (d1 ++ d2) = dict_del k d1 ++ dict_del k d2.
Proof. unfold dict_del. apply filter_app. Qed.

(** On a non-empty well-formed cache [_evict_lru] removes one binding: the
    first, in insertion order, among those of least [last_accessed]. *)
Lemma evict_lru_split (c : MemoryCache) :
  dict_wf (cache c) → cache c ≠ [] →
  ∃ victim ev before after,
    cache c = before ++ (victim, ev) :: after ∧
    (∀ k e, (k, e) ∈ before → last_accessed ev < last_accessed e) ∧
    (∀ k e, (k, e) ∈ after → last_accessed ev ≤ last_accessed e) ∧
    _evict_lru c =
      mkCache (max_size c) (default_ttl c) (before ++ after)
              (evicted (stats c)).
Proof.
  intros Hwf Hne. unfold _evict_lru.
  destruct ((cache c).*1) as [|k0 ks] eqn:Ek.
  { apply fmap_nil_inv in Ek. done. }
  destruct (min_from_split (lru_rank (cache c)) ks [] [] k0)
    as (bk & ak & E & Hb & Ha).
  { intros y Hy. by apply elem_of_nil in Hy. }
  { intros y Hy. by apply elem_of_nil in Hy. }
  simpl in E. set (victim := min_from (lru_rank (cache c)) k0 ks) in *.
  rewrite <-Ek in E.
  apply fmap_app_inv in E as (before & rest & -> & Er & Ec).
  symmetry in Er. apply fmap_cons_inv in Er as ([v' ev] & after & Ev & -> & ->).
  simpl in Ev. subst v'.
  assert (Hrank : ∀ k e, (k, e) ∈ cache c → lru_rank (cache c) k = last_accessed e).
  { intros k e Hin. unfold lru_rank. by rewrite (dict_elem_get k e). }
  assert (Hvic : lru_rank (cache c) victim = last_accessed ev).
  { apply Hrank. rewrite Ec. apply elem_of_app. right. left. }
  exists victim, ev, before, after. split_and!; [done| | |].
  - intros k e Hin. rewrite <-Hvic, <-(Hrank k e).
    + apply Hb. apply list_elem_of_fmap. by exists (k, e).
    + rewrite Ec. apply elem_of_app. by left.
  - intros k e Hin. rewrite <-Hvic, <-(Hrank k e).
    + apply Ha. apply list_elem_of_fmap. by exists (k, e).
    + rewrite Ec. apply elem_of_app. right. by right.
  - f_equal. rewrite Ec in Hwf |- *. unfold dict_wf in Hwf.
    rewrite fmap_app, fmap_cons in Hwf. simpl in Hwf.
    apply NoDup_app in Hwf as (_ & Hdisj & Hr).
    apply NoDup_cons in Hr as [Hr _].
    rewrite dict_del_app.
    change ((victim, ev) :: after) with ([(victim, ev)] ++ after).
    rewrite dict_del_app.
    rewrite (dict_del_absent victim before), (dict_del_absent victim after).
    + unfold dict_del. rewrite filter_cons. simpl.
      rewrite decide_False by (intros H'; by apply H'). done.
    + done.
    + intros Hin. apply (Hdisj _ Hin). left.
Qed.

(** *** Invariant: unique keys, at most [max_size] entries *)

Lemma dict_del_le {V} (k : string) (d : list (string * V)) :
  (length (dict_del k d) ≤ length d)%nat.
Proof. unfold dict_del. apply length_filter. Qed.

Lemma get_inv key t_check t_access c :
  inv c → inv (get key t_check t_access c).2.
Proof.
  intros [Hwf Hlen]. unfold get.
  destruct (dict_get key (cache c)) as [e|] eqn:E; [|done].
  destruct (is_expired e t_check); simpl.
  - split; simpl; [by apply dict_del_wf|].
    pose proof (dict_del_le key (cache c)). lia.
  - split; simpl; [by apply dict_set_wf|].
    rewrite dict_set_length.
    assert (dict_mem key (cache c) = true) as ->; [|done].
    unfold dict_mem. rewrite E. by apply bool_decide_eq_true_2.
Qed.

Lemma set_inv key v ttl now c :
  1 ≤ max_size c → inv c → inv (set key v ttl now c).
Proof.
  intros Hms [Hwf Hlen]. unfold set.
  destruct (bool_decide (Z.of_nat (length (cache c)) >= max_size c)
            && negb (dict_mem key (cache c))) eqn:G.
  - apply andb_true_iff in G as [Hfull Hnew].
    apply bool_decide_eq_true in Hfull. apply negb_true_iff in Hnew.
    assert (cache c ≠ []) as Hne.
    { intros E. rewrite E in Hfull. simpl in Hfull. lia. }
    destruct (evict_lru_split c Hwf Hne)
      as (victim & ev & before & after & Ec & _ & _ & ->).
    simpl.
    assert (Hwf' : dict_wf (before ++ after)).
    { unfold dict_wf in *. rewrite Ec in Hwf.
      rewrite fmap_app in Hwf |- *. rewrite fmap_cons in Hwf.
      apply NoDup_app in Hwf as (H1 & H2 & H3).
      apply NoDup_cons in H3 as [H3 H4].
      apply NoDup_app. split_and!; [done| |done].
      intros x Hx Hx'. apply (H2 x Hx). by right. }
    split; simpl; [by apply dict_set_wf|].
    rewrite dict_set_length.
    assert (dict_mem key (before ++ after) = false) as ->.
    { apply dict_mem_false, dict_get_None.
      apply dict_mem_false, dict_get_None in Hnew.
      rewrite Ec in Hnew. rewrite fmap_app in Hnew |- *.
      rewrite fmap_cons in Hnew. intros [H'|H']%elem_of_app; apply Hnew.
      - apply elem_of_app. by left.
      - apply elem_of_app. right. by right. }
    rewrite Ec in Hlen. rewrite length_app in Hlen |- *. simpl in Hlen. lia.
  - split; simpl; [by apply dict_set_wf|].
    rewrite dict_set_length.
    apply andb_false_iff in G as [G|G].
    + apply bool_decide_eq_false in G. destruct (dict_mem key (cache c)); lia.
    + apply negb_false_iff in G. rewrite G. done.
Qed.

Lemma delete_inv key c : inv c → inv (delete key c).2.
Proof.
  intros [Hwf Hlen]. unfold delete.
  destruct (dict_mem key (cache c)); [|done].
  split; simpl; [by apply dict_del_wf|].
  pose proof (dict_del_le key (cache c)). lia.
Qed.

Lemma clear_inv c : 0 ≤ max_size c → inv (clear c).
Proof. intros. split; simpl; [apply NoDup_nil_2 | done]. Qed.

Lemma foldl_del_inv {V} (ks : list string) (d : list (string * V)) :
  dict_wf d →
  dict_wf (foldl (λ d k, dict_del k d) d ks) ∧
  (length (foldl (λ d k, dict_del k d) d ks) ≤ length d)%nat.
Proof.
  revert d. induction ks as [|k ks IH]; intros d Hwf; simpl; [done|].
  destruct (IH (dict_del k d)) as [H1 H2]; [by apply dict_del_wf|].
  split; [done|]. pose proof (dict_del_le k d). lia.
Qed.

Lemma cleanup_expired_inv clock c : inv c → inv (cleanup_expired clock c).2.
Proof.
  intros [Hwf Hlen]. unfold cleanup_expired. simpl.
  match goal with |- inv (mkCache _ _ (foldl _ _ ?ks) _) =>
    destruct (foldl_del_inv ks (cache c) Hwf) as [H1 H2] end.
  split; simpl; [done | lia].
Qed.

Lemma run_op_config c o :
  max_size (run_op c o) = max_size c ∧ default_ttl (run_op c o) = default_ttl c.
Proof.
  destruct o as [key t1 t2|key v ttl now|key| |clock]; simpl.
  - unfold get. destruct (dict_get key (cache c)) as [e|]; [|done].
    by destruct (is_expired e t1).
  - unfold set, _evict_lru.
    destruct (_ && _); [|done]. by destruct ((cache c).*1).
  - unfold delete. by destruct (dict_mem key (cache c)).
  - done.
  - done.
Qed.

Lemma run_op_inv c o : 1 ≤ max_size c → inv c → inv (run_op c o).
Proof.
  intros Hms Hinv. destruct o; simpl.
  - by apply get_inv.
  - by apply set_inv.
  - by apply delete_inv.
  - apply clear_inv. lia.
  - by apply cleanup_expired_inv.
Qed.

(** Every cache reached from an empty one of capacity at least one keeps its
    configuration and satisfies the invariant. *)
Lemma run_inv ops c :
  1 ≤ max_size c → inv c →
  inv (run ops c) ∧ max_size (run ops c) = max_size c ∧
  default_ttl (run ops c) = default_ttl c.
Proof.
  revert c. induction ops as [|o ops IH]; intros c Hms Hinv; [done|].
  unfold run in *. simpl.
  destruct (run_op_config c o) as [E1 E2].
  destruct (IH (run_op c o)) as (H1 & H2 & H3).
  - lia.
  - by apply run_op_inv.
  - split_and!; [done | congruence | congruence].
Qed.

(** C4. [get] on an absent key counts a miss and returns [None]; on a stale
    entry ([t_check - created_at > ttl_seconds]) it removes the entry, counts
    a miss and returns [None]; otherwise it counts a hit, increments the
    entry's [access_count], sets [last_accessed] to the time of the access
    and returns the stored value. Nothing else changes: the other keys, the
    configuration and the eviction counter are as before. Hence a read is a
    hit exactly when the key is bound to an entry with
    [t_check - created_at <= ttl_seconds]. *)
Theorem get_contract (key : string) (t_check t_access : Z) (c : MemoryCache) :
  let r := (get key t_check t_access c).1 in
  let c' := (get key t_check t_access c).2 in
  max_size c' = max_size c ∧ default_ttl c' = default_ttl c ∧
  evictions (stats c') = evictions (stats c) ∧
  (∀ k, k ≠ key → dict_get k (cache c') = dict_get k (cache c)) ∧
  match dict_get key (cache c) with
  | None =>
      r = VNone ∧ cache c' = cache c ∧
      misses (stats c') = misses (stats c) + 1 ∧
      hits (stats c') = hits (stats c)
  | Some e =>
      if decide (t_check - created_at e > ttl_seconds e) then
        r = VNone ∧ dict_get key (cache c') = None ∧
        misses (stats c') = misses (stats c) + 1 ∧
        hits (stats c') = hits (stats c)
      else
        r = value e ∧
        dict_get key (cache c') =
          Some (mkEntry (value e) (created_at e) (ttl_seconds e)
                        (access_count e + 1) t_access) ∧
        hits (stats c') = hits (stats c) + 1 ∧
        misses (stats c') = misses (stats c)
  end ∧
  (hits (stats c') = hits (stats c) + 1 ↔
   ∃ e, dict_get key (cache c) = Some e ∧
        t_check - created_at e ≤ ttl_seconds e).
Proof.
  unfold get, is_expired, access.
  destruct (dict_get key (cache c)) as [e|] eqn:E; simpl.
  - destruct (decide (t_check - created_at e > ttl_seconds e)) as [Hs|Hs].
    + rewrite bool_decide_eq_true_2 by done. simpl.
      split_and!; try done.
      * intros k Hk. by apply dict_get_del_ne.
      * apply dict_get_del_eq.
      * split; [lia|]. intros (e' & [= <-] & Hle). lia.
    + rewrite bool_decide_eq_false_2 by done. simpl.
      split_and!; try done.
      * intros k Hk. by apply dict_get_set_ne.
      * apply dict_get_set_eq.
      * split; [|done]. intros _. exists e. split; [done|lia].
  - split_and!; try done.
    split; [lia|]. by intros (e' & [=] & _).
Qed.

(** C9. [clear] empties the mapping and leaves the hit, miss and eviction
    counters, and the configuration, as they were. *)
Theorem clear_keeps_counters (c : MemoryCache) :
  cache (clear c) = [] ∧
  length (cache (clear c)) = 0%nat ∧
  hits (stats (clear c)) = hits (stats c) ∧
  misses (stats (clear c)) = misses (stats c) ∧
  evictions (stats (clear c)) = evictions (stats c) ∧
  max_size (clear c) = max_size c ∧
  default_ttl (clear c) = default_ttl c.
Proof. by unfold clear. Qed.

(** C3 (as amended). A [set] of a new key on a non-empty cache holding at
    least [max_size] entries evicts exactly one entry, the first in insertion
    order among those with the least [last_accessed] (every entry before it
    was accessed strictly later, every entry after it no earlier), appends
    the new entry and adds one to [evictions]. With [max_size = 2], after
    [set(a)], [set(b)], [get(a)], [set(c)], where [a] is still fresh at the
    [get] and [b] was set strictly before [a] was read, [b] is gone, [a] and
    [c] remain, and [evictions] is 1. *)
Theorem set_evicts_first_least_recently_accessed :
  (∀ (c : MemoryCache) (key : string) (v : PyVal) (ttl : option Z) (now : Z),
     dict_wf (cache c) → cache c ≠ [] →
     dict_get key (cache c) = None →
     max_size c ≤ Z.of_nat (length (cache c)) →
     ∃ victim ev before after,
       cache c = before ++ (victim, ev) :: after ∧
       (∀ k e, (k, e) ∈ before → last_accessed ev < last_accessed e) ∧
       (∀ k e, (k, e) ∈ after → last_accessed ev ≤ last_accessed e) ∧
       cache (set key v ttl now c) =
         before ++ after ++
         [(key, CacheEntry_init v (py_or ttl (default_ttl c)) now)] ∧
       length (cache (set key v ttl now c)) = length (cache c) ∧
       dict_get victim (cache (set key v ttl now c)) = None ∧
       evictions (stats (set key v ttl now c)) = evictions (stats c) + 1) ∧
  (∀ (dt t0 t1 t2 t2' t3 : Z) (va vb vc : PyVal),
     t2 - t0 ≤ dt → t1 < t2' →
     let c := set "c" vc None t3
                (get "a" t2 t2'
                   (set "b" vb None t1
                      (set "a" va None t0 (MemoryCache_init 2 dt)))).2 in
     (cache c).*1 = ["a"; "c"] ∧ dict_get "b" (cache c) = None ∧
     evictions (stats c) = 1).
Proof.
  split.
  - intros c key v ttl now Hwf Hne Hnew Hfull.
    destruct (evict_lru_split c Hwf Hne)
      as (victim & ev & before & after & Ec & Hb & Ha & Hev).
    assert (Hmem : dict_mem key (cache c) = false) by by apply dict_mem_false.
    assert (cache (set key v ttl now c) =
            before ++ after ++
            [(key, CacheEntry_init v (py_or ttl (default_ttl c)) now)]) as Hc.
    { unfold set. rewrite Hmem, bool_decide_eq_true_2 by lia. simpl.
      rewrite Hev. simpl. rewrite app_assoc.
      assert (key ∉ (before ++ after).*1) as Hk.
      { apply dict_get_None in Hnew. rewrite Ec in Hnew.
        rewrite fmap_app in Hnew |- *. rewrite fmap_cons in Hnew.
        intros [H'|H']%elem_of_app; apply Hnew; apply elem_of_app;
          [by left | right; by right]. }
      revert Hk. generalize (before ++ after). intros d Hk.
      induction d as [|[k' e'] d IH]; simpl; [done|].
      simpl in Hk. apply not_elem_of_cons in Hk as [Hk1 Hk2].
      rewrite decide_False by done. by rewrite IH. }
    exists victim, ev, before, after. split_and!; try done.
    + rewrite Hc, Ec. rewrite !length_app. simpl. lia.
    + rewrite Hc. apply dict_get_None.
      unfold dict_wf in Hwf. rewrite Ec in Hwf.
      rewrite fmap_app, fmap_cons in Hwf. simpl in Hwf.
      apply NoDup_app in Hwf as (_ & Hdisj & Hr).
      apply NoDup_cons in Hr as [Hr _].
      rewrite !fmap_app. simpl.
      intros [H'|[H'|H']%elem_of_app]%elem_of_app.
      * apply (Hdisj _ H'). left.
      * done.
      * apply list_elem_of_singleton in H'. subst victim.
        apply dict_get_None in Hnew. apply Hnew. rewrite Ec.
        rewrite fmap_app, fmap_cons. apply elem_of_app. right. left.
    + unfold set. rewrite Hmem, bool_decide_eq_true_2 by lia. simpl.
      by rewrite Hev.
  - intros dt t0 t1 t2 t2' t3 va vb vc Hfresh Hlt.
    intros c. subst c.
    assert (E1 : set "a" va None t0 (MemoryCache_init 2 dt) =
                 mkCache 2 dt [("a", mkEntry va t0 dt 0 t0)] (mkStats 0 0 0))
      by (vm_compute; reflexivity).
    rewrite E1. clear E1.
    assert (E2 : set "b" vb None t1
                   (mkCache 2 dt [("a", mkEntry va t0 dt 0 t0)]
                            (mkStats 0 0 0)) =
                 mkCache 2 dt [("a", mkEntry va t0 dt 0 t0);
                               ("b", mkEntry vb t1 dt 0 t1)] (mkStats 0 0 0))
      by (vm_compute; reflexivity).
    rewrite E2. clear E2.
    assert (E3 : (get "a" t2 t2'
                    (mkCache 2 dt [("a", mkEntry va t0 dt 0 t0);
                                   ("b", mkEntry vb t1 dt 0 t1)]
                             (mkStats 0 0 0))).2 =
                 mkCache 2 dt [("a", mkEntry va t0 dt 1 t2');
                               ("b", mkEntry vb t1 dt 0 t1)] (mkStats 1 0 0)).
    { unfold get.
      change (dict_get "a" _) with (Some (mkEntry va t0 dt 0 t0)).
      unfold is_expired. cbn [created_at ttl_seconds].
      rewrite bool_decide_eq_false_2 by lia.
      vm_compute. reflexivity. }
    rewrite E3. clear E3.
    assert (E4 : _evict_lru
                   (mkCache 2 dt [("a", mkEntry va t0 dt 1 t2');
                                  ("b", mkEntry vb t1 dt 0 t1)]
                            (mkStats 1 0 0)) =
                 mkCache 2 dt [("a", mkEntry va t0 dt 1 t2')] (mkStats 1 0 1)).
    { unfold _evict_lru.
      change (fst <$> cache _) with ["a"; "b"]. cbn [min_from].
      change (lru_rank _ "b") with t1. change (lru_rank _ "a") with t2'.
      rewrite decide_True by lia. vm_compute. reflexivity. }
    unfold set.
    change (bool_decide _ && negb _) with true. cbv iota. rewrite E4.
    vm_compute. done.
Qed.

(** The theorem of C3 at work: a full cache of two entries receives a third
    key, and the scenario of the specification runs at times 0, 1, 2, 3. *)
Lemma set_evicts_first_least_recently_accessed_witness :
  (∃ victim ev before after,
     [("a", mkEntry (VInt 1) 0 3600 1 2); ("b", mkEntry (VInt 2) 1 3600 0 1)]
       = before ++ (victim, ev) :: after ∧
     (∀ k e, (k, e) ∈ before → last_accessed ev < last_accessed e) ∧
     (∀ k e, (k, e) ∈ after → last_accessed ev ≤ last_accessed e)) ∧
  evictions (stats (set "c" (VInt 3) None 3
    (get "a" 2 2 (set "b" (VInt 2) None 1
       (set "a" (VInt 1) None 0 (MemoryCache_init 2 3600)))).2)) = 1.
Proof.
  split.
  - destruct (proj1 set_evicts_first_least_recently_accessed
      (mkCache 2 3600
           [("a", mkEntry (VInt 1) 0 3600 1 2);
            ("b", mkEntry (VInt 2) 1 3600 0 1)] (mkStats 1 0 0))
      "c" (VInt 3) None 3)
      as (victim & ev & before & after & H1 & H2 & H3 & _).
    + unfold dict_wf. compute_done.
    + discriminate.
    + vm_compute. reflexivity.
    + vm_compute. discriminate.
    + exists victim, ev, before, after. exact (conj H1 (conj H2 H3)).
  - apply (proj2 set_evicts_first_least_recently_accessed
             3600 0 1 2 2 3 (VInt 1) (VInt 2) (VInt 3)); lia.
Defined.

(** C3 as written fails in two ways. (1) Ties on [last_accessed] are not
    broken by [created_at]: after [set(a)] at 0, [set(b)] at 1, [set(a)]
    again at 2 and [get(b)] at 2, both entries were last accessed at 2 and
    [b] is the older one, yet inserting [c] evicts [a], which stands first in
    the dict. (2) With [max_size = 0] the empty cache has
    [len(entries) == max_size], yet inserting a key evicts nothing and leaves
    [evictions] at 0. *)
Lemma set_eviction_as_written_counterexample :
  (let c := (get "b" 2 2
               (set "a" (VInt 9) None 2
                  (set "b" (VInt 2) None 1
                     (set "a" (VInt 1) None 0 (MemoryCache_init 2 3600))))).2 in
   Z.of_nat (length (cache c)) = max_size c ∧
   (last_accessed <$> dict_get "a" (cache c)) = Some 2 ∧
   (last_accessed <$> dict_get "b" (cache c)) = Some 2 ∧
   (created_at <$> dict_get "a" (cache c)) = Some 2 ∧
   (created_at <$> dict_get "b" (cache c)) = Some 1 ∧
   (cache (set "c" (VInt 3) None 3 c)).*1 = ["b"; "c"]) ∧
  (let c0 := MemoryCache_init 0 3600 in
   Z.of_nat (length (cache c0)) = max_size c0 ∧
   (cache (set "a" (VInt 1) None 0 c0)).*1 = ["a"] ∧
   evictions (stats (set "a" (VInt 1) None 0 c0)) = 0).
Proof. vm_compute. repeat split; reflexivity. Qed.

(** C7 (as amended). In every cache reached from an empty one of capacity
    [max_size >= 1], a [set] leaves at most [max_size] entries; a [set] of a
    key already present keeps the keys and every other entry as they are and
    does not touch [evictions]; and the entry stored under the key is a new
    one, created and last accessed at the time of the call, never read, with
    the requested TTL ([default_ttl] for a falsy one). *)
Theorem set_respects_capacity (ms dt : Z) (ops : list op)
    (key : string) (v : PyVal) (ttl : option Z) (now : Z) :
  1 ≤ ms →
  let c := run ops (MemoryCache_init ms dt) in
  let c' := set key v ttl now c in
  Z.of_nat (length (cache c')) ≤ max_size c' ∧
  max_size c' = ms ∧
  (dict_mem key (cache c) = true →
     (cache c').*1 = (cache c).*1 ∧
     evictions (stats c') = evictions (stats c) ∧
     ∀ k, k ≠ key → dict_get k (cache c') = dict_get k (cache c)) ∧
  dict_get key (cache c') = Some (mkEntry v now (py_or ttl dt) 0 now).
Proof.
  intros Hms c c'.
  destruct (run_inv ops (MemoryCache_init ms dt)) as (Hinv & Hm & Hd).
  { done. }
  { split; [apply NoDup_nil_2 | simpl; lia]. }
  fold c in Hinv, Hm, Hd. simpl in Hm, Hd.
  assert (Hinv' : inv c') by (apply set_inv; [lia | done]).
  assert (Hm' : max_size c' = ms).
  { destruct (run_op_config c (OpSet key v ttl now)) as [E _].
    change (max_size (set key v ttl now c) = max_size c) in E.
    unfold c'. by rewrite E. }
  split_and!.
  - apply Hinv'.
  - done.
  - intros Hmem. unfold c', set. rewrite Hmem, andb_false_r. simpl.
    split_and!; [|done|].
    + by rewrite dict_set_keys, Hmem.
    + intros k Hk. by apply dict_get_set_ne.
  - unfold c', set. simpl. rewrite dict_get_set_eq. by rewrite Hd.
Qed.

(** The theorem of C7 on a cache of capacity one that already holds a key. *)
Lemma set_respects_capacity_witness :
  Z.of_nat (length (cache (set "b" (VInt 2) None 5
     (run [OpSet "a" (VInt 1) (Some 60) 0] (MemoryCache_init 1 3600))))) ≤ 1.
Proof.
  pose proof (set_respects_capacity 1 3600 [OpSet "a" (VInt 1) (Some 60) 0]
                "b" (VInt 2) None 5) as H.
  destruct H as (H1 & H2 & _); [lia|]. by rewrite H2 in H1.
Defined.

(** C7 as written fails for a cache built with [max_size = 0]: [_evict_lru]
    finds nothing to evict in the empty cache, and the [set] leaves one entry
    in a cache of capacity zero. *)
Lemma set_capacity_as_written_counterexample :
  let c' := set "a" (VInt 1) None 0 (MemoryCache_init 0 3600) in
  max_size c' = 0 ∧ length (cache c') = 1%nat ∧
  max_size c' < Z.of_nat (length (cache c')).
Proof. vm_compute. repeat split; reflexivity. Qed.

(** C10 (as amended). A [set] with a falsy [ttl_seconds] ([0], or [None])
    stores the entry with the cache's [default_ttl]; the entry is stale
    exactly when more than [default_ttl] has elapsed since the [set]. So a
    read taken while [t_check - now <= default_ttl] is a hit that returns
    the value, and a read taken later returns [None], counts a miss and
    removes the entry. With a non-negative [default_ttl] the entry is not
    stale at the very time it was set; with a negative [default_ttl], which
    the constructor accepts, the entry is stale at once: every read from
    the time of the [set] on returns [None]. *)
Theorem set_falsy_ttl_uses_default (c : MemoryCache) (key : string)
    (v : PyVal) (ttl : option Z) (now t_check t_access : Z) :
  ttl = Some 0 ∨ ttl = None →
  let c' := set key v ttl now c in
  let e := mkEntry v now (default_ttl c) 0 now in
  let r := get key t_check t_access c' in
  dict_get key (cache c') = Some e ∧
  (∀ t, is_expired e t = true ↔ t - now > default_ttl c) ∧
  (0 ≤ default_ttl c → is_expired e now = false) ∧
  (t_check - now ≤ default_ttl c →
     r.1 = v ∧ hits (stats r.2) = hits (stats c') + 1) ∧
  (default_ttl c < t_check - now →
     r.1 = VNone ∧ misses (stats r.2) = misses (stats c') + 1 ∧
     hits (stats r.2) = hits (stats c') ∧
     dict_get key (cache r.2) = None) ∧
  (default_ttl c < 0 → now ≤ t_check → r.1 = VNone).
Proof.
  intros Httl c' e r.
  assert (E : dict_get key (cache c') = Some e).
  { unfold c', set. simpl. rewrite dict_get_set_eq.
    unfold CacheEntry_init. by destruct Httl as [-> | ->]. }
  assert (Hstale : default_ttl c < t_check - now →
            r = (VNone, mkCache (max_size c') (default_ttl c')
                                (dict_del key (cache c'))
                                (miss (stats c')))).
  { intros Hlate. unfold r, get. rewrite E. unfold is_expired, e.
    cbn [created_at ttl_seconds].
    by rewrite bool_decide_eq_true_2 by lia. }
  clearbody c'. split_and!.
  - done.
  - intros t. unfold is_expired. simpl. apply bool_decide_eq_true.
  - intros Hdt. unfold is_expired. simpl. apply bool_decide_eq_false. lia.
  - intros Hfresh. unfold r, get. rewrite E. unfold is_expired, e.
    cbn [created_at ttl_seconds].
    by rewrite bool_decide_eq_false_2 by lia.
  - intros Hlate. rewrite (Hstale Hlate). cbn [fst snd cache stats].
    split_and!; try done. apply dict_get_del_eq.
  - intros Hneg Hle. rewrite Hstale by lia. done.
Qed.

(** The theorem of C10 on the default configuration: an entry set with TTL 0
    at time 100 is read back at time 3700. *)
Lemma set_falsy_ttl_uses_default_witness :
  (get "k" 3700 3700
     (set "k" (VInt 7) (Some 0) 100 (MemoryCache_init 1000 3600))).1 = VInt 7.
Proof.
  pose proof (set_falsy_ttl_uses_default (MemoryCache_init 1000 3600) "k"
                (VInt 7) (Some 0) 100 3700 3700) as H.
  destruct H as (_ & _ & _ & H & _).
  - left. reflexivity.
  - apply H. simpl. lia.
Defined.

(** C10 as written fails for a cache built with a negative [default_ttl]:
    the entry set with TTL 0 gets the TTL -1 and is stale at the very
    reading of the clock at which it was set, so the read returns [None]
    and removes it. *)
Lemma set_falsy_ttl_as_written_counterexample :
  let c' := set "k" (VInt 7) (Some 0) 100 (MemoryCache_init 1000 (-1)) in
  dict_get "k" (cache c') = Some (mkEntry (VInt 7) 100 (-1) 0 100) ∧
  is_expired (mkEntry (VInt 7) 100 (-1) 0 100) 100 = true ∧
  (get "k" 100 100 c').1 = VNone ∧
  dict_get "k" (cache (get "k" 100 100 c').2) = None.
Proof. vm_compute. repeat split; reflexivity. Qed.

(** *** Key derivation *)

#[local] Instance items_le_trans : Transitive items_le.
Proof. intros p q r. unfold items_le. apply transitivity. Qed.

#[local] Instance items_le_total : Total items_le.
Proof. intros p q. unfold items_le. apply total, _. Qed.

(** Sorting forgets the order in which distinct names were given. *)
Lemma sorted_items_permutation (kw1 kw2 : list (string * PyVal)) :
  dict_wf kw1 → kw1 ≡ₚ kw2 → sorted_items kw1 = sorted_items kw2.
Proof.
  intros Hwf Hp. unfold sorted_items.
  apply (Sorted_unique_strong items_le).
  - intros x1 x2 H1 H2 H12 H21.
    rewrite merge_sort_Permutation in H1, H2. rewrite <-Hp in H2.
    unfold items_le in *.
    assert (x1.1 = x2.1) as E by by apply (anti_symm String.le).
    destruct x1 as [k v1], x2 as [k2 v2]. simpl in E. subst k2.
    apply (dict_elem_get k v1 kw1 Hwf) in H1.
    apply (dict_elem_get k v2 kw1 Hwf) in H2. congruence.
  - apply Sorted_merge_sort, _.
  - apply Sorted_merge_sort, _.
  - by rewrite !merge_sort_Permutation.
Qed.

(** Two well-formed dicts with the same bindings are permutations of each
    other. *)
Lemma same_bindings_permutation {V} (d1 d2 : list (string * V)) :
  dict_wf d1 → dict_wf d2 → (∀ k, dict_get k d1 = dict_get k d2) → d1 ≡ₚ d2.
Proof.
  intros H1 H2 E. apply NoDup_Permutation.
  - by apply (NoDup_fmap_1 fst).
  - by apply (NoDup_fmap_1 fst).
  - intros [k v]. split; intros Hin.
    + apply dict_get_Some_elem. rewrite <-E. by apply dict_elem_get.
    + apply dict_get_Some_elem. rewrite E. by apply dict_elem_get.
Qed.

(** C8. [cache_key] does not depend on the order in which the keyword
    arguments are given: two keyword mappings that hold the same name-value
    pairs in any order yield the same key (or the same error of the
    serialiser), whatever the prefix and the positional arguments; the key
    is determined by the prefix, the positional arguments and the bindings
    of the mapping. *)
Theorem cache_key_order_independent (json_dumps : PyVal → Res string)
    (md5_hexdigest : string → string) (prefix : string) (args : list PyVal)
    (kw1 kw2 : list (string * PyVal)) :
  dict_wf kw1 → dict_wf kw2 →
  (kw1 ≡ₚ kw2 ∨ ∀ k, dict_get k kw1 = dict_get k kw2) →
  cache_key json_dumps md5_hexdigest prefix args kw1 =
  cache_key json_dumps md5_hexdigest prefix args kw2.
Proof.
  intros H1 H2 Hsame.
  assert (kw1 ≡ₚ kw2) as Hp.
  { destruct Hsame as [Hp|E]; [done | by apply same_bindings_permutation]. }
  unfold cache_key. by rewrite (sorted_items_permutation kw1 kw2).
Qed.

(** The theorem of C8 on the example of the specification: the keyword
    arguments [y=2, x=1] and [x=1, y=2] after the prefix "p" and the
    positional arguments 1, 2, with a serialiser that shows the first name
    it is handed. *)
Lemma cache_key_order_independent_witness :
  let dumps := λ v, match v with
                    | VDict [_; (_, VList (VTuple [VStr n; _] :: _))] => Ok n
                    | _ => Raised (mkExc "TypeError" true "")
                    end in
  cache_key dumps (λ s, s) "p" [VInt 1; VInt 2]
            [("y", VInt 2); ("x", VInt 1)] =
  cache_key dumps (λ s, s) "p" [VInt 1; VInt 2]
            [("x", VInt 1); ("y", VInt 2)].
Proof.
  intros dumps.
  apply (cache_key_order_independent dumps (λ s, s) "p"
           [VInt 1; VInt 2] [("y", VInt 2); ("x", VInt 1)]
           [("x", VInt 1); ("y", VInt 2)]).
  - unfold dict_wf. compute_done.
  - unfold dict_wf. compute_done.
  - left. apply perm_swap.
Defined.

End CacheSpec.

(** ** The task manager *)

Module TasksSpec.
Import Tasks.

(** *** Cleanup *)

(** C2 (the code departs from it). [cleanup_old_tasks] never returns
    normally: its first statement evaluates [timedelta], a name that
    [tasks.py] neither imports nor defines, so every call raises [NameError]
    before any task is looked at, and removes nothing. *)
Theorem cleanup_old_tasks_raises_NameError (max_age_hours now : Z)
    (m : TaskManager) :
  cleanup_old_tasks max_age_hours now m = Raised (NameError "timedelta").
Proof.
  unfold cleanup_old_tasks, cleanup_old_tasks_in.
  assert (load_global module_globals "timedelta"
          = Raised (NameError "timedelta")) as -> by (vm_compute; reflexivity).
  reflexivity.
Qed.

(** For comparison, the same body run in a namespace that binds
    [timedelta] does what the docstring announces: it removes, from both
    mappings, exactly the terminal tasks completed before the cutoff. *)
Lemma foldl_delete_lookup (ks : list string) :
  ∀ (m : TaskManager) (k : string),
    let m' := foldl (λ m task_id,
                       mkManager (delete task_id (tasks m))
                                 (delete task_id (running_tasks m))) m ks in
    tasks m' !! k = (if decide (k ∈ ks) then None else tasks m !! k) ∧
    running_tasks m' !! k
      = (if decide (k ∈ ks) then None else running_tasks m !! k).
Proof.
  induction ks as [|k0 ks IH]; intros m k; cbn [foldl].
  - rewrite !decide_False by apply not_elem_of_nil. done.
  - destruct (IH (mkManager (delete k0 (tasks m))
                            (delete k0 (running_tasks m))) k) as [E1 E2].
    cbv zeta in E1, E2. rewrite E1, E2. simpl.
    destruct (decide (k ∈ ks)) as [Hin|Hin].
    + rewrite !decide_True by (apply elem_of_cons; by right). done.
    + destruct (decide (k = k0)) as [->|Hne].
      * rewrite !decide_True by (apply elem_of_cons; by left).
        by rewrite !lookup_delete_eq.
      * rewrite !decide_False by (by rewrite not_elem_of_cons).
        by rewrite !lookup_delete_ne.
Qed.

Lemma cleanup_with_timedelta_bound (globals : list string)
    (max_age_hours now : Z) (m : TaskManager) :
  "timedelta" ∈ globals →
  ∃ m',
    cleanup_old_tasks_in globals max_age_hours now m = Ok m' ∧
    ∀ k,
      let cutoff_time := now - max_age_hours * microseconds_per_hour in
      match tasks m !! k with
      | Some t =>
          if is_old cutoff_time t
          then tasks m' !! k = None ∧ running_tasks m' !! k = None
          else tasks m' !! k = Some t ∧
               running_tasks m' !! k = running_tasks m !! k
      | None =>
          tasks m' !! k = None ∧
          running_tasks m' !! k = running_tasks m !! k
      end.
Proof.
  intros Hg. unfold cleanup_old_tasks_in, load_global.
  rewrite !decide_True by done. eexists. split; [done|].
  intros k. set (cutoff_time := now - max_age_hours * microseconds_per_hour).
  match goal with |- context [foldl _ m ?ks] =>
    destruct (foldl_delete_lookup ks m k) as [E1 E2];
    assert (Hks : k ∈ ks ↔
             ∃ t, tasks m !! k = Some t ∧ is_old cutoff_time t = true) end.
  { rewrite list_elem_of_fmap. split.
    - intros ([k' t] & -> & Hin). apply list_elem_of_filter in Hin as [Ho Hin].
      apply elem_of_map_to_list in Hin. by exists t.
    - intros (t & Ht & Ho). exists (k, t). split; [done|].
      apply list_elem_of_filter. split; [done|].
      by apply elem_of_map_to_list. }
  cbv zeta in E1, E2. rewrite E1, E2.
  destruct (tasks m !! k) as [t|] eqn:Et.
  - destruct (is_old cutoff_time t) eqn:Ho.
    + rewrite !decide_True by (apply Hks; by exists t). done.
    + rewrite !decide_False; [done|..]; rewrite Hks;
        intros (t' & [= <-] & ?); congruence.
  - rewrite !decide_False; [done|..]; rewrite Hks; by intros (t' & ? & _).
Qed.

(** *** Cancellation *)

(** C1 (as amended). [cancel_task] succeeds exactly on an id that is in
    [running_tasks] and whose record is RUNNING: it returns [True], marks the
    record FAILED with the error "Task cancelled" and [completed_at] the time
    of the call, and files the cancellation request with the handle, which
    stays in [running_tasks]; a second [cancel_task] on the id then returns
    [False], and when the loop next runs a task whose work lets the
    [CancelledError] pass, the id leaves [running_tasks] and the record stays
    as [cancel_task] left it. [cancel_task] returns [False] and changes
    nothing for an id that is not in [running_tasks] and for a record that is
    not RUNNING; in particular a task cancelled right after [create_task],
    while PENDING, is not cancelled. *)
Theorem cancel_task_contract (m : TaskManager) (task_id : string) (now : Z) :
  (∀ h t,
     running_tasks m !! task_id = Some h → tasks m !! task_id = Some t →
     status t = RUNNING →
     ∃ m',
       cancel_task task_id now m = Ok (true, m') ∧
       tasks m' = <[task_id := mark_failed "Task cancelled" now t]> (tasks m) ∧
       running_tasks m' =
         <[task_id := mkHandle (coro h) true]> (running_tasks m) ∧
       (∀ now', cancel_task task_id now' m' = Ok (false, m')) ∧
       (∀ resumed t_start t_end,
          coro h = Suspended resumed (Raise CancelledError) →
          ∃ m'',
            run_step task_id t_start t_end m'
              = Some (Escaped CancelledError, m'') ∧
            running_tasks m'' !! task_id = None ∧
            tasks m'' = tasks m')) ∧
  (running_tasks m !! task_id = None →
     cancel_task task_id now m = Ok (false, m)) ∧
  (∀ t, tasks m !! task_id = Some t → status t ≠ RUNNING →
        cancel_task task_id now m = Ok (false, m)) ∧
  (∀ name func t0,
     let m0 := (create_task task_id name func t0 m).2 in
     cancel_task task_id now m0 = Ok (false, m0) ∧
     status <$> tasks m0 !! task_id = Some PENDING).
Proof.
  split_and!.
  - intros h t Hh Ht Hs. eexists. split_and!.
    + unfold cancel_task. rewrite Hh, Ht. rewrite decide_True by done. done.
    + done.
    + done.
    + intros now'. unfold cancel_task. simpl.
      rewrite !lookup_insert_eq. simpl. done.
    + intros resumed t_start t_end Hc. eexists. split_and!.
      * unfold run_step. simpl. rewrite lookup_insert_eq. simpl.
        rewrite Hc. simpl. done.
      * simpl. apply lookup_delete_eq.
      * done.
  - intros Hh. unfold cancel_task. by rewrite Hh.
  - intros t Ht Hs. unfold cancel_task. rewrite Ht.
    destruct (running_tasks m !! task_id); [|done].
    by rewrite decide_False.
  - intros name func t0 m0. unfold m0, cancel_task, create_task. simpl.
    rewrite !lookup_insert_eq. simpl. done.
Qed.

(** The theorem of C1 on a manager with one task, suspended at an [await]. *)
Lemma cancel_task_contract_witness :
  ∃ m',
    cancel_task "t1" 9
      (mkManager {[ "t1" := mkTask "t1" "report" RUNNING 0 (Some 1) None
                                   VNone None 0 ]}
                 {[ "t1" := mkHandle (Suspended (Return VNone)
                                                (Raise CancelledError))
                                     false ]})
    = Ok (true, m').
Proof.
  destruct (proj1 (cancel_task_contract
      (mkManager {[ "t1" := mkTask "t1" "report" RUNNING 0 (Some 1) None
                                   VNone None 0 ]}
                 {[ "t1" := mkHandle (Suspended (Return VNone)
                                                (Raise CancelledError))
                                     false ]}) "t1" 9)
      (mkHandle (Suspended (Return VNone) (Raise CancelledError)) false)
      (mkTask "t1" "report" RUNNING 0 (Some 1) None VNone None 0))
    as (m' & H & _).
  - simpl. apply lookup_singleton_eq.
  - simpl. apply lookup_singleton_eq.
  - reflexivity.
  - exists m'. exact H.
Defined.

(** C1 as written fails on a task that is still PENDING, and on the removal
    from [running_tasks]. A task cancelled right after [create_task] is in
    [running_tasks], yet [cancel_task] returns [False] and leaves it PENDING.
    A task cancelled while RUNNING is marked FAILED, but its id is still in
    [running_tasks] when [cancel_task] returns. *)
Lemma cancel_task_as_written_counterexample :
  (let m0 := (create_task "t1" "report" (Return VNone) 0
                TaskManager_init).2 in
   is_Some (running_tasks m0 !! "t1") ∧
   status <$> tasks m0 !! "t1" = Some PENDING ∧
   cancel_task "t1" 1 m0 = Ok (false, m0)) ∧
  (let m0 := (create_task "t1" "report"
                (Await (Return VNone) (Raise CancelledError)) 0
                TaskManager_init).2 in
   ∃ m1 m2,
     run_step "t1" 1 1 m0 = Some (Yielded, m1) ∧
     status <$> tasks m1 !! "t1" = Some RUNNING ∧
     cancel_task "t1" 2 m1 = Ok (true, m2) ∧
     status <$> tasks m2 !! "t1" = Some FAILED ∧
     is_Some (running_tasks m2 !! "t1")).
Proof.
  split.
  - split_and!.
    + simpl. rewrite lookup_insert_eq. by eexists.
    + simpl. by rewrite lookup_insert_eq.
    + unfold cancel_task, create_task. simpl.
      rewrite !lookup_insert_eq. simpl. done.
  - eexists _, _. split_and!.
    + unfold run_step, create_task. simpl.
      rewrite !lookup_insert_eq. simpl. reflexivity.
    + simpl. rewrite lookup_alter_eq, lookup_insert_eq. done.
    + unfold cancel_task. simpl.
      rewrite lookup_insert_eq, lookup_alter_eq, lookup_insert_eq. simpl.
      reflexivity.
    + simpl. by rewrite lookup_insert_eq.
    + simpl. rewrite lookup_insert_eq. by eexists.
Qed.

(** *** Running a task to its end *)

Lemma default_last_cons {A} (x y : A) (l : list A) :
  default x (last (y :: l)) = default y (last l).
Proof.
  destruct l as [|z l]; [done|]. rewrite last_cons_cons.
  destruct (last (z :: l)) eqn:E; [done|]. by apply last_None in E.
Qed.

(** From any point of [_run_task] where the work is about to yield its next
    observation, as many further turns as the work has suspensions bring the
    task to its end: the handle leaves [running_tasks], and the record is
    completed, failed, or (an exception that [except Exception] does not
    match) left as it was. *)
Lemma settle_runs_to_end (task_id : string) (w : Work) :
  ∀ (m : TaskManager) (t : Task) (t_end : Z) (clock : list (Z * Z)),
    tasks m !! task_id = Some t →
    length clock = suspensions w →
    ∃ outs m',
      run_steps task_id clock (settle task_id w t_end m).2 = Some (outs, m') ∧
      running_tasks m' !! task_id = None ∧
      (∀ k, k ≠ task_id → tasks m' !! k = tasks m !! k) ∧
      let t_last := default t_end (last clock.*2) in
      let all := (settle task_id w t_end m).1 :: outs in
      match completion w with
      | inl v =>
          tasks m' !! task_id = Some (mark_completed v t_last t) ∧
          Forall contained all
      | inr e =>
          if is_Exception e then
            tasks m' !! task_id = Some (mark_failed (exc_str e) t_last t) ∧
            Forall contained all
          else
            tasks m' !! task_id = Some t ∧ last all = Some (Escaped e)
      end.
Proof.
  induction w as [v|e|resumed IH cancelled _]; intros m t t_end clock Ht Hlen.
  - destruct clock; [|done]. simpl. eexists _, _.
    split; [done|]. split; [apply lookup_delete_eq|].
    split; [intros k Hk; by apply lookup_alter_ne|].
    simpl. rewrite lookup_alter_eq, Ht. split; [done | by repeat constructor].
  - destruct clock; [|done]. simpl.
    destruct (is_Exception e) eqn:He; simpl; eexists _, _;
      (split; [done|]); (split; [apply lookup_delete_eq|]).
    + split; [intros k Hk; by apply lookup_alter_ne|].
      simpl. rewrite lookup_alter_eq, Ht.
      split; [done | by repeat constructor].
    + done.
  - destruct clock as [|[t1 t2] clock]; [done|].
    simpl in Hlen. injection Hlen as Hlen.
    set (m1 := (settle task_id (Await resumed cancelled) t_end m).2).
    assert (Hstep : run_step task_id t1 t2 m1
                    = Some (settle task_id resumed t2 m1)).
    { unfold run_step, m1. simpl. by rewrite lookup_insert_eq. }
    destruct (IH m1 t t2 clock) as (outs & m' & Hrun & Hgone & Hfr & Hfin).
    { done. }
    { done. }
    exists ((settle task_id resumed t2 m1).1 :: outs), m'.
    split_and!.
    + simpl. fold m1. rewrite Hstep.
      destruct (settle task_id resumed t2 m1) as [o m2]. simpl in Hrun.
      by rewrite Hrun.
    + done.
    + done.
    + intros t_last all. subst t_last all.
      change (((t1, t2) :: clock).*2) with (t2 :: clock.*2).
      rewrite default_last_cons. cbn [completion]. cbv zeta in Hfin.
      change ((settle task_id (Await resumed cancelled) t_end m).1)
        with Yielded.
      destruct (completion resumed) as [v|e].
      * destruct Hfin as [H1 H2]. split; [done|]. by constructor.
      * destruct (is_Exception e).
        -- destruct Hfin as [H1 H2]. split; [done|]. by constructor.
        -- destruct Hfin as [H1 H2]. split; [done|].
           by rewrite last_cons_cons.
Qed.

(** The same for a task just created: one turn to start it, one more for
    each suspension of its work. *)
Lemma created_runs_to_end (m : TaskManager) (task_id name : string)
    (func : Work) (now t_start t_end : Z) (clock : list (Z * Z)) :
  length clock = suspensions func →
  let t0 := mark_running t_start
              (mkTask task_id name PENDING now None None VNone None 0) in
  ∃ outs m',
    run_steps task_id ((t_start, t_end) :: clock)
              (create_task task_id name func now m).2 = Some (outs, m') ∧
    running_tasks m' !! task_id = None ∧
    (∀ k, k ≠ task_id → tasks m' !! k = tasks m !! k) ∧
    let t_last := default t_end (last clock.*2) in
    match completion func with
    | inl v =>
        tasks m' !! task_id = Some (mark_completed v t_last t0) ∧
        Forall contained outs
    | inr e =>
        if is_Exception e then
          tasks m' !! task_id = Some (mark_failed (exc_str e) t_last t0) ∧
          Forall contained outs
        else
          tasks m' !! task_id = Some t0 ∧ last outs = Some (Escaped e)
    end.
Proof.
  intros Hlen t0.
  set (m0 := (create_task task_id name func now m).2).
  set (m1 := mkManager (alter (mark_running t_start) task_id (tasks m0))
                       (running_tasks m0)).
  assert (Hstep : run_step task_id t_start t_end m0
                  = Some (settle task_id func t_end m1)).
  { unfold run_step, m1, m0. simpl. by rewrite !lookup_insert_eq. }
  destruct (settle_runs_to_end task_id func m1 t0 t_end clock)
    as (outs & m' & Hrun & Hgone & Hfr & Hfin).
  { unfold m1, m0. simpl. by rewrite lookup_alter_eq, lookup_insert_eq. }
  { done. }
  exists ((settle task_id func t_end m1).1 :: outs), m'. split_and!.
  - simpl. rewrite Hstep.
    destruct (settle task_id func t_end m1) as [o m2]. simpl in Hrun.
    by rewrite Hrun.
  - done.
  - intros k Hk. rewrite (Hfr k Hk). unfold m1, m0. simpl.
    by rewrite lookup_alter_ne, lookup_insert_ne.
  - done.
Qed.

(** *** The invariant of the manager *)

Lemma handle_ok_tasks (m m' : TaskManager) (task_id : string) (h : Handle) :
  tasks m' !! task_id = tasks m !! task_id →
  handle_ok m task_id h → handle_ok m' task_id h.
Proof. intros E (t & Ht & H). exists t. by rewrite E. Qed.

(** Moving from [m] to [m'] by changing only what is filed under [task_id]
    keeps the invariant, provided the new record and handle are in order. *)
Lemma manager_ok_frame (m m' : TaskManager) (task_id : string) :
  (∀ k t, k ≠ task_id → tasks m !! k = Some t → record_ok t) →
  (∀ k h, k ≠ task_id → running_tasks m !! k = Some h → handle_ok m k h) →
  (∀ k, k ≠ task_id → tasks m' !! k = tasks m !! k) →
  (∀ k, k ≠ task_id → running_tasks m' !! k = running_tasks m !! k) →
  (∀ t, tasks m' !! task_id = Some t → record_ok t) →
  (∀ h, running_tasks m' !! task_id = Some h → handle_ok m' task_id h) →
  manager_ok m'.
Proof.
  intros Hrec Hhan Ft Fh Hr Hh. split.
  - intros k t Hk. destruct (decide (k = task_id)) as [->|Hne]; [auto|].
    rewrite Ft in Hk by done. eauto.
  - intros k h Hk. destruct (decide (k = task_id)) as [->|Hne]; [auto|].
    rewrite Fh in Hk by done. apply (handle_ok_tasks m); [by apply Ft | eauto].
Qed.

Lemma settle_ok (task_id : string) (w : Work) (now : Z) (m : TaskManager)
    (t : Task) :
  (∀ k t, k ≠ task_id → tasks m !! k = Some t → record_ok t) →
  (∀ k h, k ≠ task_id → running_tasks m !! k = Some h → handle_ok m k h) →
  tasks m !! task_id = Some t → record_ok t → result t = VNone →
  status t = RUNNING ∨ status t = FAILED →
  manager_ok (settle task_id w now m).2.
Proof.
  intros Hrec Hhan Ht Hok Hres Hst.
  apply (manager_ok_frame m _ task_id); [done|done|..].
  - intros k Hk. destruct w as [v|e|r c]; simpl; [|destruct (is_Exception e)|];
      simpl; by rewrite ?lookup_alter_ne.
  - intros k Hk. destruct w as [v|e|r c]; simpl; [|destruct (is_Exception e)|];
      simpl; by rewrite ?lookup_delete_ne, ?lookup_insert_ne.
  - intros t'. destruct w as [v|e|r c]; simpl; [|destruct (is_Exception e)|];
      simpl; rewrite ?lookup_alter_eq, ?Ht; simpl; by intros [= <-].
  - intros h. destruct w as [v|e|r c]; simpl; [|destruct (is_Exception e)|];
      simpl; rewrite ?lookup_delete_eq, ?lookup_insert_eq; try done.
    intros [= <-]. exists t. by split_and!.
Qed.

Lemma create_task_ok (m : TaskManager) (task_id name : string) (func : Work)
    (now : Z) :
  manager_ok m → manager_ok (create_task task_id name func now m).2.
Proof.
  intros [Hrec Hhan].
  apply (manager_ok_frame m _ task_id); simpl.
  - eauto.
  - eauto.
  - intros k Hk. by rewrite lookup_insert_ne.
  - intros k Hk. by rewrite lookup_insert_ne.
  - intros t. rewrite lookup_insert_eq. by intros [= <-].
  - intros h. rewrite lookup_insert_eq. intros [= <-].
    eexists. simpl. rewrite lookup_insert_eq. by split_and!.
Qed.

(** When the scheduling step succeeds, [create_task_with] is
    [create_task]. *)
Lemma create_task_with_scheduled (task_id name : string) (func : Work)
    (now : Z) (m : TaskManager) :
  create_task_with (Ok tt) task_id name func now m
  = (Ok task_id, (create_task task_id name func now m).2).
Proof. reflexivity. Qed.

(** A creation that fails at its scheduling step leaves a PENDING record
    and registers nothing. *)
Lemma create_task_raises_ok (m : TaskManager) (task_id name : string)
    (func : Work) (now : Z) (e : PyExc) :
  manager_ok m → tasks m !! task_id = None →
  manager_ok (create_task_with (Raised e) task_id name func now m).2.
Proof.
  intros [Hrec Hhan] Hfresh.
  apply (manager_ok_frame m _ task_id); simpl.
  - eauto.
  - eauto.
  - intros k Hk. by rewrite lookup_insert_ne.
  - done.
  - intros t. rewrite lookup_insert_eq. by intros [= <-].
  - intros h Hh. destruct (Hhan task_id h Hh) as (t & Ht & _). congruence.
Qed.

Lemma run_step_ok (m m' : TaskManager) (task_id : string) (t_start t_end : Z)
    (o : StepOutcome) :
  manager_ok m → run_step task_id t_start t_end m = Some (o, m') →
  manager_ok m'.
Proof.
  intros [Hrec Hhan]. unfold run_step.
  destruct (running_tasks m !! task_id) as [h|] eqn:Eh; [|done].
  destruct (Hhan task_id h Eh) as (t & Ht & Hres & Hc).
  pose proof (Hrec task_id t Ht) as Hok.
  destruct (coro h) as [func|resumed cancelled|]; [| |done].
  - destruct Hc as [Hp ->]. rewrite Ht.
    set (m1 := mkManager _ _).
    intros E. assert (m' = (settle task_id func t_end m1).2) as ->.
    { by destruct (settle task_id func t_end m1); simplify_eq. }
    apply (settle_ok _ _ _ _ (mark_running t_start t)).
    + intros k t' Hk. unfold m1. simpl. rewrite lookup_alter_ne by done. eauto.
    + intros k h' Hk Hh'. apply (handle_ok_tasks m).
      * unfold m1. simpl. by rewrite lookup_alter_ne.
      * eauto.
    + unfold m1. simpl. by rewrite lookup_alter_eq, Ht.
    + unfold record_ok in *. rewrite Hp in Hok. done.
    + done.
    + by left.
  - set (w := if must_cancel h then cancelled else resumed).
    intros E. assert (m' = (settle task_id w t_end m).2) as ->.
    { by destruct (settle task_id w t_end m); simplify_eq. }
    apply (settle_ok _ _ _ _ t); eauto.
Qed.

Lemma cancel_task_ok (m m' : TaskManager) (task_id : string) (now : Z)
    (b : bool) :
  manager_ok m → cancel_task task_id now m = Ok (b, m') → manager_ok m'.
Proof.
  intros Hm. pose proof Hm as [Hrec Hhan]. unfold cancel_task.
  destruct (running_tasks m !! task_id) as [h|] eqn:Eh;
    [|by intros; simplify_eq].
  destruct (tasks m !! task_id) as [t|] eqn:Et; [|done].
  destruct (decide (status t = RUNNING)) as [Hs|Hs]; [|by intros; simplify_eq].
  intros E. simplify_eq.
  destruct (Hhan task_id h Eh) as (t' & Ht' & Hres & Hc). simplify_eq.
  apply (manager_ok_frame m _ task_id); simpl.
  - eauto.
  - eauto.
  - intros k Hk. by rewrite lookup_insert_ne.
  - intros k Hk. by rewrite lookup_insert_ne.
  - intros t1. rewrite lookup_insert_eq. intros [= <-].
    unfold record_ok. simpl. split; [by eexists | done].
  - intros h'. rewrite lookup_insert_eq. intros [= <-].
    eexists. simpl. rewrite lookup_insert_eq. split_and!; [done|done|].
    simpl. destruct (coro h); [|by right|done].
    destruct Hc as [Hp _]. congruence.
Qed.

Lemma reachable_ok (m : TaskManager) : reachable m → manager_ok m.
Proof.
  induction 1 as [|m task_id name func now _ IH _
                  |m task_id name func now e _ IH Hfresh
                  |m task_id t_start t_end o m' _ IH Hstep
                  |m task_id now b m' _ IH Hc].
  - split; intros k x; simpl; by rewrite lookup_empty.
  - by apply create_task_ok.
  - by apply create_task_raises_ok.
  - by eapply run_step_ok.
  - by eapply cancel_task_ok.
Qed.


(** *** Results and errors *)




(** *** Failures of the work *)




End TasksSpec.

(** ** The cache in use: round trips, sweeps, counters, helpers *)

Module CacheApiSpec.
Import Cache CacheApi.

Lemma evict_lru_config (c : MemoryCache) :
  max_size (_evict_lru c) = max_size c ∧
  default_ttl (_evict_lru c) = default_ttl c ∧
  hits (stats (_evict_lru c)) = hits (stats c) ∧
  misses (stats (_evict_lru c)) = misses (stats c) ∧
  evictions (stats c) ≤ evictions (stats (_evict_lru c)) ≤
    evictions (stats c) + 1.
Proof.
  unfold _evict_lru. destruct ((cache c).*1); simpl; split_and!; lia.
Qed.

Lemma evict_lru_wf (c : MemoryCache) :
  dict_wf (cache c) → dict_wf (cache (_evict_lru c)).
Proof.
  intros Hwf. unfold _evict_lru. destruct ((cache c).*1); [done|].
  simpl. by apply dict_del_wf.
Qed.

(** What an eviction does to a key: it is gone, or untouched. *)
Lemma evict_lru_get (c : MemoryCache) (k : string) :
  dict_get k (cache (_evict_lru c)) = dict_get k (cache c) ∨
  dict_get k (cache (_evict_lru c)) = None.
Proof.
  unfold _evict_lru. destruct ((cache c).*1) as [|k0 ks]; [by left|].
  simpl. set (lru := min_from _ _ _).
  destruct (decide (lru = k)) as [->|Hne].
  - right. apply dict_get_del_eq.
  - left. by apply dict_get_del_ne.
Qed.

Lemma set_wf (key : string) (v : PyVal) (ttl : option Z) (now : Z)
    (c : MemoryCache) :
  dict_wf (cache c) → dict_wf (cache (set key v ttl now c)).
Proof.
  intros Hwf. unfold set. simpl. apply dict_set_wf.
  destruct (_ && _); [by apply evict_lru_wf | done].
Qed.

Lemma set_get_key (key : string) (v : PyVal) (ttl : option Z) (now : Z)
    (c : MemoryCache) :
  dict_get key (cache (set key v ttl now c))
  = Some (mkEntry v now (py_or ttl (default_ttl c)) 0 now).
Proof. unfold set. simpl. apply dict_get_set_eq. Qed.

(** A [set] leaves any other key as it was, or evicts it. *)
Lemma set_get_other (key k : string) (v : PyVal) (ttl : option Z) (now : Z)
    (c : MemoryCache) :
  key ≠ k →
  dict_get k (cache (set key v ttl now c)) = dict_get k (cache c) ∨
  dict_get k (cache (set key v ttl now c)) = None.
Proof.
  intros Hne. unfold set. simpl. rewrite dict_get_set_ne by done.
  destruct (_ && _); [apply evict_lru_get | by left].
Qed.

(** The two outcomes of a [get] on a key that is bound. *)
Lemma get_fresh (c : MemoryCache) (key : string) (e : CacheEntry)
    (t_check t_access : Z) :
  dict_get key (cache c) = Some e →
  t_check - created_at e ≤ ttl_seconds e →
  get key t_check t_access c
  = (value e,
     mkCache (max_size c) (default_ttl c)
       (dict_set key (mkEntry (value e) (created_at e) (ttl_seconds e)
                              (access_count e + 1) t_access) (cache c))
       (hit (stats c))).
Proof.
  intros E Ht. unfold get, is_expired, access. rewrite E.
  by rewrite bool_decide_eq_false_2 by lia.
Qed.

Lemma get_stale (c : MemoryCache) (key : string) (e : CacheEntry)
    (t_check t_access : Z) :
  dict_get key (cache c) = Some e →
  t_check - created_at e > ttl_seconds e →
  get key t_check t_access c
  = (VNone,
     mkCache (max_size c) (default_ttl c) (dict_del key (cache c))
             (miss (stats c))).
Proof.
  intros E Ht. unfold get, is_expired. rewrite E.
  by rewrite bool_decide_eq_true_2 by lia.
Qed.

Lemma get_absent (c : MemoryCache) (key : string) (t_check t_access : Z) :
  dict_get key (cache c) = None →
  get key t_check t_access c
  = (VNone, mkCache (max_size c) (default_ttl c) (cache c) (miss (stats c))).
Proof. intros E. unfold get. by rewrite E. Qed.

Lemma dict_get_mem {V} (k : string) (v : V) (d : list (string * V)) :
  dict_get k d = Some v → dict_mem k d = true.
Proof.
  intros E. unfold dict_mem. rewrite E. apply bool_decide_eq_true_2.
  by eexists.
Qed.

(** X1. What was [set] can be read back until its TTL has elapsed: a [get]
    of the key taken while [t_check - now <= ttl] (the TTL given, or
    [default_ttl] for a falsy one) returns the value and counts one hit;
    a [get] taken later returns [None], counts one miss, removes the entry
    and leaves the cache one entry shorter. *)
Theorem set_then_get (c : MemoryCache) (key : string) (v : PyVal)
    (ttl : option Z) (now t_check t_access : Z) :
  dict_wf (cache c) →
  let c' := set key v ttl now c in
  let r := get key t_check t_access c' in
  (t_check - now ≤ py_or ttl (default_ttl c) →
     r.1 = v ∧ hits (stats r.2) = hits (stats c') + 1 ∧
     misses (stats r.2) = misses (stats c') ∧
     length (cache r.2) = length (cache c')) ∧
  (t_check - now > py_or ttl (default_ttl c) →
     r.1 = VNone ∧ misses (stats r.2) = misses (stats c') + 1 ∧
     hits (stats r.2) = hits (stats c') ∧
     dict_get key (cache r.2) = None ∧
     S (length (cache r.2)) = length (cache c')).
Proof.
  intros Hwf c' r.
  assert (Hwf' : dict_wf (cache c')) by by apply set_wf.
  assert (E : dict_get key (cache c')
              = Some (mkEntry v now (py_or ttl (default_ttl c)) 0 now))
    by apply set_get_key.
  clearbody c'. unfold r. clear r. split; intros Ht.
  - rewrite (get_fresh c' key _ t_check t_access E) by (simpl; lia).
    simpl. split_and!; try done.
    rewrite dict_set_length. by rewrite (dict_get_mem key _ _ E).
  - rewrite (get_stale c' key _ t_check t_access E) by (simpl; lia).
    simpl. split_and!; try done.
    + apply dict_get_del_eq.
    + apply dict_del_length; [done|].
      by apply dict_mem_true, (dict_get_mem key _ _ E).
Qed.

(** The theorem of X1 on a fresh cache: a value set at time 10 with a TTL of
    one second is read back at time 11. *)
Lemma set_then_get_witness :
  (get "k" 11 11 (set "k" (VInt 7) (Some 1) 10
                    (MemoryCache_init 1000 3600))).1 = VInt 7.
Proof.
  destruct (set_then_get (MemoryCache_init 1000 3600) "k" (VInt 7) (Some 1)
              10 11 11) as [H _].
  - apply NoDup_nil_2.
  - apply H. vm_compute. discriminate.
Defined.

(** X2. [delete] reports whether the key was present; afterwards the key is
    absent, every other key keeps its entry, the counters are untouched, the
    cache is shorter by one exactly when the key was present, and a second
    [delete] of the key returns [False]. *)
Theorem delete_contract (c : MemoryCache) (key : string) :
  dict_wf (cache c) →
  let c' := (delete key c).2 in
  (delete key c).1 = dict_mem key (cache c) ∧
  dict_get key (cache c') = None ∧
  (∀ k, k ≠ key → dict_get k (cache c') = dict_get k (cache c)) ∧
  stats c' = stats c ∧
  length (cache c)
    = (length (cache c') + (if dict_mem key (cache c) then 1 else 0))%nat ∧
  (delete key c').1 = false.
Proof.
  intros Hwf c'. unfold c', delete.
  destruct (dict_mem key (cache c)) eqn:E; simpl.
  - split_and!; try done.
    + apply dict_get_del_eq.
    + intros k Hk. by apply dict_get_del_ne.
    + rewrite <-(dict_del_length key (cache c)); [lia|done|].
      by apply dict_mem_true.
    + assert (dict_mem key (dict_del key (cache c)) = false) as ->; [|done].
      apply dict_mem_false, dict_get_del_eq.
  - split_and!; try done.
    + by apply dict_mem_false.
    + by rewrite E.
Qed.

(** The theorem of X2 on a cache holding one key. *)
Lemma delete_contract_witness :
  (delete "k" (set "k" (VInt 7) None 0 (MemoryCache_init 2 60))).1 = true.
Proof.
  destruct (delete_contract (set "k" (VInt 7) None 0 (MemoryCache_init 2 60))
              "k") as [H _].
  - apply set_wf, NoDup_nil_2.
  - rewrite H. vm_compute. reflexivity.
Defined.

(** *** The sweep of expired entries *)

Lemma foldl_dict_del_get {V} (ks : list string) :
  ∀ (d : list (string * V)) (k : string),
    dict_get k (foldl (λ d k, dict_del k d) d ks)
    = if decide (k ∈ ks) then None else dict_get k d.
Proof.
  induction ks as [|k0 ks IH]; intros d k; cbn [foldl].
  - by rewrite decide_False by apply not_elem_of_nil.
  - rewrite IH. destruct (decide (k ∈ ks)) as [Hin|Hin].
    + by rewrite decide_True by (apply elem_of_cons; by right).
    + destruct (decide (k = k0)) as [->|Hne].
      * rewrite decide_True by (apply elem_of_cons; by left).
        apply dict_get_del_eq.
      * rewrite decide_False by (by rewrite not_elem_of_cons).
        by apply dict_get_del_ne.
Qed.

Lemma dict_del_keys {V} (k x : string) (d : list (string * V)) :
  x ∈ (dict_del k d).*1 ↔ x ∈ d.*1 ∧ x ≠ k.
Proof.
  rewrite <-!dict_mem_true. unfold dict_mem. rewrite !bool_decide_eq_true.
  destruct (decide (x = k)) as [->|Hne].
  - rewrite dict_get_del_eq. split; [by intros [? ?] | by intros [_ ?]].
  - rewrite dict_get_del_ne by done. split; [by intros ? | by intros [? _]].
Qed.

Lemma foldl_dict_del_length {V} (ks : list string) :
  ∀ d : list (string * V),
    dict_wf d → NoDup ks → ks ⊆ d.*1 →
    (length (foldl (λ d k, dict_del k d) d ks) + length ks)%nat = length d.
Proof.
  induction ks as [|k ks IH]; intros d Hwf Hnd Hsub; cbn [foldl length].
  - lia.
  - apply NoDup_cons in Hnd as [Hk Hnd].
    rewrite <-(dict_del_length k d); [|done|apply Hsub; left].
    rewrite <-(IH (dict_del k d)); [lia|by apply dict_del_wf|done|].
    intros x Hx. apply dict_del_keys. split.
    + apply Hsub. by right.
    + intros ->. done.
Qed.

Lemma foldl_dict_del_wf {V} (ks : list string) :
  ∀ d : list (string * V),
    dict_wf d → dict_wf (foldl (λ d k, dict_del k d) d ks).
Proof.
  induction ks as [|k ks IH]; intros d Hwf; cbn [foldl]; [done|].
  by apply IH, dict_del_wf.
Qed.

(** The keys that [cleanup_expired] collects. *)
Lemma expired_keys_cons (clock : nat → Z) (k : string) (e : CacheEntry)
    (d : list (string * CacheEntry)) :
  (filter (λ p, is_expired p.1.2 p.2 = true)
          (imap (λ i p, (p, clock i)) ((k, e) :: d))).*1.*1
  = (if is_expired e (clock 0%nat) then [k] else [])
    ++ (filter (λ p, is_expired p.1.2 p.2 = true)
               (imap (λ i p, (p, clock (S i))) d)).*1.*1.
Proof.
  rewrite imap_cons, filter_cons. simpl.
  destruct (is_expired e (clock 0%nat)) eqn:E.
  - by rewrite decide_True.
  - by rewrite decide_False by (by intros ?).
Qed.

Lemma expired_keys_sublist (d : list (string * CacheEntry)) :
  ∀ clock : nat → Z,
    (filter (λ p, is_expired p.1.2 p.2 = true)
            (imap (λ i p, (p, clock i)) d)).*1.*1 `sublist_of` d.*1.
Proof.
  induction d as [|[k e] d IH]; intros clock.
  - constructor.
  - rewrite expired_keys_cons. rewrite fmap_cons. simpl.
    destruct (is_expired e (clock 0%nat)); simpl.
    + constructor. apply (IH (λ i, clock (S i))).
    + constructor. apply (IH (λ i, clock (S i))).
Qed.

Lemma expired_keys_elem (d : list (string * CacheEntry)) :
  ∀ (clock : nat → Z) (k : string),
    k ∈ (filter (λ p, is_expired p.1.2 p.2 = true)
                (imap (λ i p, (p, clock i)) d)).*1.*1
    ↔ ∃ i e, d !! i = Some (k, e) ∧ is_expired e (clock i) = true.
Proof.
  induction d as [|[k0 e0] d IH]; intros clock k.
  - simpl. split; [by intros ?%elem_of_nil | by intros (i & e & ? & _)].
  - rewrite expired_keys_cons, elem_of_app, (IH (λ i, clock (S i))). split.
    + intros [Hk|(i & e & Hi & He)].
      * destruct (is_expired e0 (clock 0%nat)) eqn:E;
          [|by apply elem_of_nil in Hk].
        apply list_elem_of_singleton in Hk as ->. by exists 0%nat, e0.
      * by exists (S i), e.
    + intros ([|i] & e & Hi & He); simpl in Hi.
      * injection Hi as -> ->. left. rewrite He. left.
      * right. by exists i, e.
Qed.

(** X3. [cleanup_expired] removes exactly the entries that are stale at the
    time they are examined: an entry survives the sweep if and only if it is
    not expired at its reading of the clock; keys that were absent stay
    absent; the number returned is the number of entries removed; counters
    and configuration are untouched. *)
Theorem cleanup_expired_sweeps (clock : nat → Z) (c : MemoryCache) :
  dict_wf (cache c) →
  let n := (cleanup_expired clock c).1 in
  let c' := (cleanup_expired clock c).2 in
  (∀ i k e, cache c !! i = Some (k, e) →
     dict_get k (cache c')
     = if is_expired e (clock i) then None else Some e) ∧
  (∀ k, dict_get k (cache c) = None → dict_get k (cache c') = None) ∧
  Z.of_nat (length (cache c')) + n = Z.of_nat (length (cache c)) ∧
  0 ≤ n ∧ dict_wf (cache c') ∧
  stats c' = stats c ∧ max_size c' = max_size c ∧
  default_ttl c' = default_ttl c.
Proof.
  intros Hwf n c'. unfold n, c', cleanup_expired. simpl.
  set (ks := (filter _ _).*1.*1).
  assert (Hsub : ks `sublist_of` (cache c).*1) by apply expired_keys_sublist.
  split_and!; try done.
  - intros i k e Hi. rewrite foldl_dict_del_get.
    assert (Hget : dict_get k (cache c) = Some e).
    { apply dict_elem_get; [done|]. by eapply list_elem_of_lookup_2. }
    destruct (decide (k ∈ ks)) as [Hin|Hin].
    + apply expired_keys_elem in Hin as (i' & e' & Hi' & He').
      assert (i' = i) as ->.
      { apply (NoDup_lookup (cache c).*1 i' i k); [done|..];
          rewrite list_lookup_fmap; [by rewrite Hi'|by rewrite Hi]. }
      rewrite Hi in Hi'. injection Hi' as <-. by rewrite He'.
    + destruct (is_expired e (clock i)) eqn:He; [|done].
      exfalso. apply Hin. apply expired_keys_elem. by exists i, e.
  - intros k Hk. rewrite foldl_dict_del_get. by destruct (decide _).
  - pose proof (foldl_dict_del_length ks (cache c) Hwf) as Hl.
    rewrite <-Hl; [lia| |by apply sublist_subseteq].
    by eapply sublist_NoDup.
  - lia.
  - by apply foldl_dict_del_wf.
Qed.

(** The theorem of X3 on a cache of two entries swept at time 100, one with
    a TTL of 10 and one with a TTL of 1000, both set at time 0. *)
Lemma cleanup_expired_sweeps_witness :
  (cleanup_expired (λ _, 100)
     (mkCache 10 3600 [("a", mkEntry (VInt 1) 0 10 0 0);
                       ("b", mkEntry (VInt 2) 0 1000 0 0)]
              (mkStats 0 0 0))).1 = 1.
Proof.
  destruct (cleanup_expired_sweeps (λ _, 100)
     (mkCache 10 3600 [("a", mkEntry (VInt 1) 0 10 0 0);
                       ("b", mkEntry (VInt 2) 0 1000 0 0)]
              (mkStats 0 0 0))) as (_ & _ & H & _).
  - unfold dict_wf. compute_done.
  - vm_compute. reflexivity.
Defined.

(** *** The counters *)

Lemma run_op_stats (c : MemoryCache) (o : op) :
  hits (stats (run_op c o)) + misses (stats (run_op c o))
    = hits (stats c) + misses (stats c) + (if is_get o then 1 else 0) ∧
  hits (stats c) ≤ hits (stats (run_op c o)) ∧
  misses (stats c) ≤ misses (stats (run_op c o)) ∧
  evictions (stats c) ≤ evictions (stats (run_op c o))
    ≤ evictions (stats c) + (if is_set o then 1 else 0).
Proof.
  destruct o as [key t1 t2|key v ttl now|key| |clock]; simpl.
  - unfold get. destruct (dict_get key (cache c)) as [e|]; simpl; [|lia].
    destruct (is_expired e t1); simpl; lia.
  - unfold set. simpl. destruct (_ && _); [|lia].
    pose proof (evict_lru_config c). lia.
  - unfold delete. destruct (dict_mem key (cache c)); simpl; lia.
  - lia.
  - lia.
Qed.

(** X4. The counters account for the traffic. Over any sequence of cache
    operations, [hits + misses] grows by exactly the number of [get] calls,
    neither counter ever decreases, and [evictions] grows by at most the
    number of [set] calls; [clear], [delete] and [cleanup_expired] leave all
    three as they are. *)
Theorem counters_account_for_traffic (ops : list op) (c : MemoryCache) :
  hits (stats (run ops c)) + misses (stats (run ops c))
    = hits (stats c) + misses (stats c) + count_gets ops ∧
  hits (stats c) ≤ hits (stats (run ops c)) ∧
  misses (stats c) ≤ misses (stats (run ops c)) ∧
  evictions (stats c) ≤ evictions (stats (run ops c))
    ≤ evictions (stats c) + count_sets ops.
Proof.
  revert c. unfold run, count_gets, count_sets.
  induction ops as [|o ops IH]; intros c; simpl; [lia|].
  specialize (IH (run_op c o)). pose proof (run_op_stats c o) as Ho.
  rewrite !filter_cons.
  destruct (is_get o) eqn:Eg, (is_set o) eqn:Es; simpl;
    rewrite ?decide_True by done; rewrite ?decide_False by done;
    simpl; lia.
Qed.

(** *** The [cached] decorator *)

Lemma is_None_true (v : PyVal) : is_None v = true ↔ v = VNone.
Proof. destruct v; simpl; split; (done || discriminate). Qed.

Lemma get_config (key : string) (t_check t_access : Z) (c : MemoryCache) :
  default_ttl (get key t_check t_access c).2 = default_ttl c ∧
  max_size (get key t_check t_access c).2 = max_size c.
Proof.
  unfold get. destruct (dict_get key (cache c)) as [e|]; [|done].
  by destruct (is_expired e t_check).
Qed.

(** What a [get] can return: [None], or the value bound to the key. *)
Lemma get_value (key : string) (t_check t_access : Z) (c : MemoryCache) :
  (get key t_check t_access c).1 = VNone ∨
  ∃ e, dict_get key (cache c) = Some e ∧
       (get key t_check t_access c).1 = value e.
Proof.
  unfold get. destruct (dict_get key (cache c)) as [e|]; [|by left].
  destruct (is_expired e t_check); [by left|]. right. by exists e.
Qed.

(** After a [get] the key is bound, if at all, to the value it had. *)
Lemma get_keeps_value (key : string) (t_check t_access : Z)
    (c : MemoryCache) (e' : CacheEntry) :
  dict_get key (cache (get key t_check t_access c).2) = Some e' →
  ∃ e, dict_get key (cache c) = Some e ∧ value e' = value e.
Proof.
  unfold get. destruct (dict_get key (cache c)) as [e|] eqn:E.
  - destruct (is_expired e t_check); simpl.
    + by rewrite dict_get_del_eq.
    + rewrite dict_get_set_eq. intros [= <-]. by exists e.
  - simpl. by rewrite E.
Qed.

(** X5. The decorator memoizes. When a call ran the decorated function and
    returned a value other than [None], the next call with the same
    positional arguments and the same keyword arguments in any order, made
    before the TTL has elapsed, returns that value without running the
    function. *)
Theorem cached_memoizes (json_dumps : PyVal → Res string)
    (md5_hexdigest : string → string) (ttl : option Z)
    (key_prefix func_name : string)
    (func func' : list PyVal → list (string * PyVal) → Res PyVal)
    (args : list PyVal) (kw1 kw2 : list (string * PyVal)) (v : PyVal)
    (t1 t1' t_set t2 t2' t_set' : Z) (c : MemoryCache) :
  dict_wf kw1 → kw1 ≡ₚ kw2 →
  let first := cached_wrapper json_dumps md5_hexdigest ttl key_prefix
                 func_name func args kw1 t1 t1' t_set c in
  func_called first = true → outcome first = Ok v → v ≠ VNone →
  t2 - t_set ≤ py_or ttl (default_ttl c) →
  let second := cached_wrapper json_dumps md5_hexdigest ttl key_prefix
                  func_name func' args kw2 t2 t2' t_set'
                  (cache_after first) in
  outcome second = Ok v ∧ func_called second = false.
Proof.
  intros Hwf Hp first Hcalled Hout Hv Ht second.
  unfold second, first, cached_wrapper in *.
  assert (Hk : cache_key json_dumps md5_hexdigest
                 (if decide (key_prefix = "") then func_name else key_prefix)
                 args kw2
               = cache_key json_dumps md5_hexdigest
                 (if decide (key_prefix = "") then func_name else key_prefix)
                 args kw1).
  { unfold cache_key.
    by rewrite (CacheSpec.sorted_items_permutation kw1 kw2). }
  rewrite Hk. clear Hk.
  destruct (cache_key _ _ _ args kw1) as [k|e]; [|done].
  destruct (get k t1 t1' c) as [r c1] eqn:Eg.
  destruct (is_None r); [|done].
  destruct (func args kw1) as [v'|e]; [|done].
  simpl in Hout. injection Hout as ->. simpl.
  assert (Hd : default_ttl c1 = default_ttl c).
  { pose proof (get_config k t1 t1' c) as [H _]. by rewrite Eg in H. }
  rewrite (get_fresh _ k _ t2 t2' (set_get_key k v ttl t_set c1))
    by (simpl; rewrite Hd; lia).
  simpl. destruct v; done.
Qed.

(** The theorem of X5 on an empty cache: a function that returns 42 is
    called with [x=1, y=2] and then with [y=2, x=1]. *)
Lemma cached_memoizes_witness :
  let dumps := λ v : PyVal, Ok "k" in
  let first := cached_wrapper dumps (λ s, s) (Some 60) "" "f"
                 (λ _ _, Ok (VInt 42)) []
                 [("x", VInt 1); ("y", VInt 2)] 0 0 0
                 (MemoryCache_init 10 3600) in
  func_called
    (cached_wrapper dumps (λ s, s) (Some 60) "" "f"
       (λ _ _, Ok (VInt 0)) [] [("y", VInt 2); ("x", VInt 1)] 5 5 5
       (cache_after first)) = false.
Proof.
  intros dumps first.
  refine (proj2 (cached_memoizes dumps (λ s, s) (Some 60) "" "f"
            (λ _ _, Ok (VInt 42)) (λ _ _, Ok (VInt 0)) []
            [("x", VInt 1); ("y", VInt 2)] [("y", VInt 2); ("x", VInt 1)]
            (VInt 42) 0 0 0 5 5 5 (MemoryCache_init 10 3600)
            _ _ _ _ _ _)).
  - unfold dict_wf. compute_done.
  - apply perm_swap.
  - vm_compute. reflexivity.
  - vm_compute. reflexivity.
  - discriminate.
  - vm_compute. discriminate.
Defined.

(** X6. The decorator never memoizes [None] or a failure. When a call ran
    the decorated function and the function returned [None] or raised, the
    next call for the same key runs the function again, whenever it is
    made. *)
Theorem cached_retries_none_and_failures (json_dumps : PyVal → Res string)
    (md5_hexdigest : string → string) (ttl : option Z)
    (key_prefix func_name : string)
    (func func' : list PyVal → list (string * PyVal) → Res PyVal)
    (args : list PyVal) (kwargs : list (string * PyVal))
    (t1 t1' t_set t2 t2' t_set' : Z) (c : MemoryCache) :
  let first := cached_wrapper json_dumps md5_hexdigest ttl key_prefix
                 func_name func args kwargs t1 t1' t_set c in
  func_called first = true →
  (∀ v, outcome first = Ok v → v = VNone) →
  func_called (cached_wrapper json_dumps md5_hexdigest ttl key_prefix
                 func_name func' args kwargs t2 t2' t_set'
                 (cache_after first)) = true.
Proof.
  intros first Hcalled Hnone. unfold first, cached_wrapper in *.
  destruct (cache_key _ _ _ args kwargs) as [k|e]; [|done].
  destruct (get k t1 t1' c) as [r c1] eqn:Eg.
  destruct (is_None r) eqn:Er; [|done].
  apply is_None_true in Er. subst r.
  assert (Hafter : ∀ c2, (∀ e, dict_get k (cache c2) = Some e →
                               value e = VNone) →
            func_called
              (let '(cached_result, c3) := get k t2 t2' c2 in
               if is_None cached_result
               then match func' args kwargs with
                    | Ok result =>
                        mkServed (Ok result) true
                                 (set k result ttl t_set' c3)
                    | Raised e => mkServed (Raised e) true c3
                    end
               else mkServed (Ok cached_result) false c3) = true).
  { intros c2 Hc2. destruct (get k t2 t2' c2) as [r2 c3] eqn:Eg2.
    assert (r2 = VNone) as ->.
    { destruct (get_value k t2 t2' c2) as [H|(e & He & H)];
        rewrite Eg2 in H; simpl in H; [done|].
      rewrite H. by apply Hc2. }
    simpl. by destruct (func' args kwargs). }
  assert (Hc1 : ∀ e, dict_get k (cache c1) = Some e → value e = VNone).
  { intros e1 He1.
    pose proof (get_keeps_value k t1 t1' c e1) as Hk.
    rewrite Eg in Hk. destruct (Hk He1) as (e0 & He0 & Hv).
    rewrite Hv. unfold get in Eg. rewrite He0 in Eg.
    destruct (is_expired e0 t1); simpl in Eg.
    - injection Eg as <-. simpl in He1. by rewrite dict_get_del_eq in He1.
    - injection Eg as Hv' _. done. }
  destruct (func args kwargs) as [v|e].
  - simpl in Hnone. rewrite (Hnone v eq_refl). simpl. apply Hafter.
    intros e He. rewrite set_get_key in He. by injection He as <-.
  - simpl. by apply Hafter.
Qed.

(** The theorem of X6 on an empty cache and a function that returns
    [None]. *)
Lemma cached_retries_none_and_failures_witness :
  let dumps := λ v : PyVal, Ok "k" in
  let first := cached_wrapper dumps (λ s, s) None "" "f"
                 (λ _ _, Ok VNone) [] [] 0 0 0
                 (MemoryCache_init 10 3600) in
  func_called
    (cached_wrapper dumps (λ s, s) None "" "f" (λ _ _, Ok VNone) [] []
       1 1 1 (cache_after first)) = true.
Proof.
  intros dumps first.
  apply (cached_retries_none_and_failures dumps (λ s, s) None "" "f"
           (λ _ _, Ok VNone) (λ _ _, Ok VNone) [] [] 0 0 0 1 1 1
           (MemoryCache_init 10 3600)).
  - vm_compute. reflexivity.
  - vm_compute. intros v [= <-]. reflexivity.
Defined.

(** *** The helpers *)

(** X7. Sessions are kept apart. A session cached for a user is read back
    for that user until its TTL has elapsed; and caching it never changes
    what another user reads, except that the other user's session may have
    been evicted to make room: the other user reads what they read before,
    or [None]. *)
Theorem user_sessions_kept_apart (c : MemoryCache) (user other : string)
    (session_data : PyVal) (ttl now t_check t_access : Z) :
  user ≠ other →
  let c' := cache_user_session user session_data ttl now c in
  (t_check - now ≤ py_or (Some ttl) (default_ttl c) →
     (get_user_session user t_check t_access c').1 = session_data) ∧
  ((get_user_session other t_check t_access c').1
     = (get_user_session other t_check t_access c).1 ∨
   (get_user_session other t_check t_access c').1 = VNone).
Proof.
  intros Hne c'. unfold c', cache_user_session, get_user_session. split.
  - intros Ht.
    by rewrite (get_fresh _ _ _ t_check t_access
                  (set_get_key ("session:" +:+ user) session_data (Some ttl)
                     now c)) by (cbn [created_at ttl_seconds]; lia).
  - assert (Hk : "session:" +:+ user ≠ "session:" +:+ other).
    { intros E. by apply (inj (String.app "session:")) in E. }
    destruct (set_get_other _ _ session_data (Some ttl) now c Hk) as [E|E].
    + left. unfold get. rewrite E.
      destruct (dict_get _ (cache c)) as [e|]; [|done].
      by destruct (is_expired e t_check).
    + right. unfold get. by rewrite E.
Qed.

(** The theorem of X7 for two users of an empty cache. *)
Lemma user_sessions_kept_apart_witness :
  (get_user_session "u1" 5 5
     (cache_user_session "u1" (VStr "s") 1800 0
        (MemoryCache_init 1000 3600))).1 = VStr "s".
Proof.
  destruct (user_sessions_kept_apart (MemoryCache_init 1000 3600) "u1" "u2"
              (VStr "s") 1800 0 5 5) as [H _].
  - discriminate.
  - apply H. vm_compute. discriminate.
Defined.

(** X8. A cached LLM response is read back for the same prompt until its
    TTL has elapsed, and the writer and the reader derive the same key: if
    the serialiser fails for a prompt, both raise the same error and the
    cache is not touched. *)
Theorem llm_response_round_trip (json_dumps : PyVal → Res string)
    (md5_hexdigest : string → string) (prompt : string) (response : PyVal)
    (ttl now t_check t_access : Z) (c : MemoryCache) :
  match cache_llm_response json_dumps md5_hexdigest prompt response ttl
          now c with
  | Ok c' =>
      t_check - now ≤ py_or (Some ttl) (default_ttl c) →
      ∃ c'', get_cached_llm_response json_dumps md5_hexdigest prompt
               t_check t_access c' = Ok (response, c'')
  | Raised e =>
      get_cached_llm_response json_dumps md5_hexdigest prompt
        t_check t_access c = Raised e
  end.
Proof.
  unfold cache_llm_response, get_cached_llm_response.
  destruct (cache_key _ _ _ _ _) as [k|e]; [|done].
  intros Ht. eexists.
  by rewrite (get_fresh _ _ _ t_check t_access
                (set_get_key k response (Some ttl) now c)) by (cbn [created_at ttl_seconds]; lia).
Qed.

Lemma prefix_app (s a b : string) :
  String.prefix (s +:+ a) (s +:+ b) = String.prefix a b.
Proof.
  induction s as [|x s IH]; [done|].
  change (String x s +:+ a) with (String x (s +:+ a)).
  change (String x s +:+ b) with (String x (s +:+ b)).
  simpl. by destruct (Ascii.ascii_dec x x).
Qed.

Lemma prefix_trans (a b c : string) :
  String.prefix a b = true → String.prefix b c = true →
  String.prefix a c = true.
Proof.
  revert b c. induction a as [|x a IH]; intros [|y b] [|z c]; simpl;
    try done.
  destruct (Ascii.ascii_dec x y) as [->|]; [|done].
  destruct (Ascii.ascii_dec y z) as [->|]; [|done].
  destruct (Ascii.ascii_dec z z); [|done]. apply IH.
Qed.

Lemma prefix_refl (a : string) : String.prefix a a = true.
Proof.
  induction a as [|x a IH]; [done|]. simpl.
  by destruct (Ascii.ascii_dec x x).
Qed.

Lemma prefix_app_r (a r : string) : String.prefix a (a +:+ r) = true.
Proof.
  induction a as [|x a IH]; [by destruct ("" +:+ r)|].
  change (String x a +:+ r) with (String x (a +:+ r)). simpl.
  by destruct (Ascii.ascii_dec x x).
Qed.

Lemma foldl_delete_cache (ks : list string) :
  ∀ c : MemoryCache,
    let c' := foldl (λ c key, (delete key c).2) c ks in
    cache c' = foldl (λ d k, dict_del k d) (cache c) ks ∧
    stats c' = stats c ∧ max_size c' = max_size c ∧
    default_ttl c' = default_ttl c.
Proof.
  induction ks as [|k ks IH]; intros c; cbn [foldl]; [done|].
  destruct (IH (delete k c).2) as (E1 & E2 & E3 & E4).
  cbv zeta in *. rewrite E1, E2, E3, E4. unfold delete.
  destruct (dict_mem k (cache c)) eqn:E; simpl; [done|].
  split_and!; try done. f_equal. symmetry. apply dict_del_absent.
  by apply dict_get_None, dict_mem_false.
Qed.

(** X9. [invalidate_user_cache] removes every key that starts with
    "session:" or "user:" followed by the user id, and nothing else: such
    keys are absent afterwards, every other key keeps its entry, and the
    counters are untouched. Because the test is a prefix test, the sessions
    and the entries of every user whose id begins with the given id are
    removed as well. *)
Theorem invalidate_user_cache_removes_by_prefix (user_id : string)
    (c : MemoryCache) :
  let c' := invalidate_user_cache user_id c in
  (∀ k, belongs_to_user user_id k = true → dict_get k (cache c') = None) ∧
  (∀ k, belongs_to_user user_id k = false →
        dict_get k (cache c') = dict_get k (cache c)) ∧
  (∀ other rest, String.prefix user_id other = true →
     dict_get ("session:" +:+ other +:+ rest) (cache c') = None ∧
     dict_get ("user:" +:+ other +:+ rest) (cache c') = None) ∧
  stats c' = stats c.
Proof.
  intros c'. unfold c', invalidate_user_cache.
  set (ks := filter _ _).
  destruct (foldl_delete_cache ks c) as (E & Es & _). cbv zeta in E, Es.
  rewrite E, Es.
  assert (Hks : ∀ k, k ∈ ks ↔ belongs_to_user user_id k = true
                              ∧ k ∈ (cache c).*1).
  { intros k. unfold ks. by rewrite list_elem_of_filter. }
  assert (Hyes : ∀ k, belongs_to_user user_id k = true →
            dict_get k (foldl (λ d k, dict_del k d) (cache c) ks) = None).
  { intros k Hk. rewrite foldl_dict_del_get.
    destruct (decide (k ∈ ks)) as [|Hin]; [done|].
    apply dict_get_None. intros Hin'. apply Hin. by apply Hks. }
  split_and!; [done| | |done].
  - intros k Hk. rewrite foldl_dict_del_get.
    rewrite decide_False; [done|]. rewrite Hks. intros [? _]. congruence.
  - intros other rest Hp.
    assert (Hp' : String.prefix user_id (other +:+ rest) = true).
    { apply (prefix_trans _ other); [done|]. apply prefix_app_r. }
    split; apply Hyes; unfold belongs_to_user.
    + by rewrite prefix_app, Hp'.
    + by rewrite (prefix_app "user:"), Hp', orb_true_r.
Qed.

End CacheApiSpec.

(** ** The task manager in use: records, timestamps, the example tasks *)

Module TasksApiSpec.
Import Tasks TasksApi.

(** A turn of the loop on one task leaves every other task alone. *)
Lemma settle_frame (task_id : string) (w : Work) (now : Z) (m : TaskManager)
    (k : string) :
  k ≠ task_id →
  tasks (settle task_id w now m).2 !! k = tasks m !! k ∧
  running_tasks (settle task_id w now m).2 !! k = running_tasks m !! k.
Proof.
  intros Hk. destruct w as [v|e|r c]; simpl; [|destruct (is_Exception e)|];
    simpl; by rewrite ?lookup_alter_ne, ?lookup_delete_ne, ?lookup_insert_ne.
Qed.

Lemma run_step_frame (m m' : TaskManager) (task_id : string)
    (t_start t_end : Z) (o : StepOutcome) (k : string) :
  run_step task_id t_start t_end m = Some (o, m') → k ≠ task_id →
  tasks m' !! k = tasks m !! k ∧
  running_tasks m' !! k = running_tasks m !! k.
Proof.
  unfold run_step. intros Hs Hk.
  destruct (running_tasks m !! task_id) as [h|]; [|done].
  destruct (coro h) as [func|r c|]; [| |done].
  - destruct (must_cancel h).
    { simplify_eq. simpl. by rewrite lookup_insert_ne. }
    destruct (tasks m !! task_id).
    + set (m1 := mkManager _ _) in Hs.
      assert (m' = (settle task_id func t_end m1).2) as ->
        by (by destruct (settle task_id func t_end m1); simplify_eq).
      destruct (settle_frame task_id func t_end m1 k Hk) as [-> ->].
      unfold m1. simpl. by rewrite lookup_alter_ne.
    + simplify_eq. simpl. by rewrite lookup_insert_ne.
  - set (w := if must_cancel h then c else r) in Hs.
    assert (m' = (settle task_id w t_end m).2) as ->
      by (by destruct (settle task_id w t_end m); simplify_eq).
    by apply settle_frame.
Qed.

Lemma cancel_task_frame (m m' : TaskManager) (task_id : string) (now : Z)
    (b : bool) (k : string) :
  cancel_task task_id now m = Ok (b, m') → k ≠ task_id →
  tasks m' !! k = tasks m !! k ∧
  running_tasks m' !! k = running_tasks m !! k.
Proof.
  unfold cancel_task. intros Hc Hk.
  destruct (running_tasks m !! task_id) as [h|]; [|by simplify_eq].
  destruct (tasks m !! task_id) as [t|]; [|done].
  destruct (decide (status t = RUNNING)); simplify_eq; [|done].
  simpl. by rewrite !lookup_insert_ne.
Qed.

Lemma settle_identity (task_id : string) (w : Work) (now : Z)
    (m : TaskManager) (t : Task) :
  tasks m !! task_id = Some t →
  ∃ t', tasks (settle task_id w now m).2 !! task_id = Some t' ∧
        same_identity t t'.
Proof.
  intros Ht. destruct w as [v|e|r c]; simpl; [|destruct (is_Exception e)|];
    simpl; rewrite ?lookup_alter_eq, ?Ht; simpl; by eexists.
Qed.

Lemma run_step_identity (m m' : TaskManager) (task_id : string)
    (t_start t_end : Z) (o : StepOutcome) (t : Task) :
  run_step task_id t_start t_end m = Some (o, m') →
  tasks m !! task_id = Some t →
  ∃ t', tasks m' !! task_id = Some t' ∧ same_identity t t'.
Proof.
  unfold run_step. intros Hs Ht.
  destruct (running_tasks m !! task_id) as [h|]; [|done].
  destruct (coro h) as [func|r c|]; [| |done].
  - destruct (must_cancel h); [simplify_eq; by exists t|].
    rewrite Ht in Hs.
    set (m1 := mkManager _ _) in Hs.
    assert (m' = (settle task_id func t_end m1).2) as ->
      by (by destruct (settle task_id func t_end m1); simplify_eq).
    destruct (settle_identity task_id func t_end m1 (mark_running t_start t))
      as (t' & Ht' & Hid).
    { unfold m1. simpl. by rewrite lookup_alter_eq, Ht. }
    exists t'. split; [done|]. by destruct Hid as (? & ? & ?).
  - set (w := if must_cancel h then c else r) in Hs.
    assert (m' = (settle task_id w t_end m).2) as ->
      by (by destruct (settle task_id w t_end m); simplify_eq).
    by apply settle_identity.
Qed.

Lemma transition_identity (m m' : TaskManager) (k : string) (t : Task) :
  transition m m' → tasks m !! k = Some t →
  ∃ t', tasks m' !! k = Some t' ∧ same_identity t t'.
Proof.
  intros Htr Ht.
  destruct Htr as [m task_id name func now Hfresh
                  |m task_id name func now e Hfresh
                  |m task_id t_start t_end o m' Hs
                  |m task_id now b m' Hc].
  - exists t. split; [|done]. simpl. rewrite lookup_insert_ne; [done|].
    intros ->. congruence.
  - exists t. split; [|done]. simpl. rewrite lookup_insert_ne; [done|].
    intros ->. congruence.
  - destruct (decide (k = task_id)) as [->|Hne].
    + by eapply run_step_identity.
    + exists t. split; [|done].
      by rewrite (proj1 (run_step_frame _ _ _ _ _ _ k Hs Hne)).
  - destruct (decide (k = task_id)) as [->|Hne].
    + unfold cancel_task in Hc.
      destruct (running_tasks m !! task_id) as [h|];
        [|simplify_eq; by exists t].
      rewrite Ht in Hc.
      destruct (decide (status t = RUNNING)); simplify_eq; [|by exists t].
      eexists. simpl. by rewrite lookup_insert_eq.
    + exists t. split; [|done].
      by rewrite (proj1 (cancel_task_frame _ _ _ _ _ k Hc Hne)).
Qed.

(** X10. Records persist. Through any sequence of creations, turns of the
    loop and cancellations, a record once created is never removed from
    [tasks], and its [id], [name] and [created_at] never change. *)
Theorem records_persist (m m' : TaskManager) (k : string) (t : Task) :
  rtc transition m m' → tasks m !! k = Some t →
  ∃ t', tasks m' !! k = Some t' ∧
        id t' = id t ∧ name t' = name t ∧ created_at t' = created_at t.
Proof.
  intros Hrtc. revert t. induction Hrtc as [m|m m1 m2 Htr _ IH]; intros t Ht.
  - by exists t.
  - destruct (transition_identity m m1 k t Htr Ht) as (t1 & Ht1 & H1 & H2 & H3).
    destruct (IH t1 Ht1) as (t2 & Ht2 & H4 & H5 & H6).
    exists t2. split; [done|]. split_and!; congruence.
Qed.

(** The theorem of X10 on a task that is created and run for one turn. *)
Lemma records_persist_witness :
  ∃ t', tasks (mkManager
                 {[ "t1" := mkTask "t1" "scan" RUNNING 0 (Some 1) None VNone
                                   None 0 ]}
                 {[ "t1" := mkHandle (Suspended (Return VNone)
                                                (Raise CancelledError))
                                     false ]}) !! "t1" = Some t' ∧
        id t' = "t1" ∧ name t' = "scan" ∧ created_at t' = 0.
Proof.
  refine (records_persist
            (create_task "t1" "scan"
               (Await (Return VNone) (Raise CancelledError)) 0
               TaskManager_init).2 _ "t1"
            (mkTask "t1" "scan" PENDING 0 None None VNone None 0) _ _).
  - apply rtc_once. apply (tr_step _ "t1" 1 1 Yielded).
    vm_compute. reflexivity.
  - vm_compute. reflexivity.
Defined.

(** A change of the manager leaves alone a record that has nothing
    registered under its id. *)
Lemma transition_unregistered (m m' : TaskManager) (k : string) (t : Task) :
  transition m m' →
  tasks m !! k = Some t → running_tasks m !! k = None →
  tasks m' !! k = Some t ∧ running_tasks m' !! k = None.
Proof.
  intros Htr Ht Hr.
  destruct Htr as [m task_id name func now Hfresh
                  |m task_id name func now e Hfresh
                  |m task_id t_start t_end o m' Hs
                  |m task_id now b m' Hc].
  - assert (k ≠ task_id) by (intros ->; congruence).
    simpl. by rewrite !lookup_insert_ne.
  - assert (k ≠ task_id) by (intros ->; congruence).
    simpl. by rewrite lookup_insert_ne.
  - destruct (decide (k = task_id)) as [->|Hne].
    + unfold run_step in Hs. by rewrite Hr in Hs.
    + destruct (run_step_frame _ _ _ _ _ _ k Hs Hne) as [-> ->]. done.
  - destruct (decide (k = task_id)) as [->|Hne].
    + unfold cancel_task in Hc. rewrite Hr in Hc. by simplify_eq.
    + destruct (cancel_task_frame _ _ _ _ _ k Hc Hne) as [-> ->]. done.
Qed.

(** X11. A finished task is final. Once the id of a record has left
    [running_tasks], no creation, turn of the loop or cancellation ever
    changes the record again, and the id never returns to [running_tasks];
    in particular [cancel_task] on it returns [False]. *)
Theorem finished_record_is_final (m m' : TaskManager) (k : string)
    (t : Task) :
  rtc transition m m' →
  tasks m !! k = Some t → running_tasks m !! k = None →
  tasks m' !! k = Some t ∧ running_tasks m' !! k = None ∧
  ∀ now, cancel_task k now m' = Ok (false, m').
Proof.
  intros Hrtc Ht Hr.
  assert (tasks m' !! k = Some t ∧ running_tasks m' !! k = None) as [Ht' Hr'].
  { induction Hrtc as [m|m m1 m2 Htr _ IH]; [done|].
    destruct (transition_unregistered m m1 k t Htr Ht Hr). by apply IH. }
  split_and!; [done|done|].
  intros now. unfold cancel_task. by rewrite Hr'.
Qed.

(** The theorem of X11 on a completed task and the creation of another. *)
Lemma finished_record_is_final_witness :
  cancel_task "t1" 9
    (create_task "t2" "scan" (Return VNone) 5
       (mkManager {[ "t1" := mkTask "t1" "report" COMPLETED 0 (Some 1)
                                    (Some 2) (VInt 5) None 100 ]} ∅)).2
  = Ok (false,
        (create_task "t2" "scan" (Return VNone) 5
           (mkManager {[ "t1" := mkTask "t1" "report" COMPLETED 0 (Some 1)
                                        (Some 2) (VInt 5) None 100 ]} ∅)).2).
Proof.
  refine (proj2 (proj2 (finished_record_is_final
            (mkManager {[ "t1" := mkTask "t1" "report" COMPLETED 0 (Some 1)
                                         (Some 2) (VInt 5) None 100 ]} ∅)
            _ "t1"
            (mkTask "t1" "report" COMPLETED 0 (Some 1) (Some 2) (VInt 5)
                    None 100) _ _ _)) 9).
  - apply rtc_once. apply tr_create. vm_compute. reflexivity.
  - vm_compute. reflexivity.
  - vm_compute. reflexivity.
Defined.

(** *** Status, timestamps and registration *)

Lemma lifecycle_frame (m m' : TaskManager) (task_id : string) :
  lifecycle_ok m →
  (∀ k, k ≠ task_id → tasks m' !! k = tasks m !! k ∧
                       running_tasks m' !! k = running_tasks m !! k) →
  (∀ t', tasks m' !! task_id = Some t' →
     id t' = task_id ∧ record_times_ok t' ∧
     (status t' = PENDING →
      running_tasks m' !! task_id = None ∨
      ∃ func, running_tasks m' !! task_id
              = Some (mkHandle (NotStarted func) false))) →
  lifecycle_ok m'.
Proof.
  intros Hm Hfr Hnew k t Hk.
  destruct (decide (k = task_id)) as [->|Hne]; [by apply Hnew|].
  destruct (Hfr k Hne) as [E1 E2]. rewrite E1 in Hk. rewrite E2.
  by apply Hm.
Qed.

Lemma settle_lifecycle (task_id : string) (w : Work) (now : Z)
    (m m0 : TaskManager) (t : Task) :
  lifecycle_ok m0 →
  (∀ k, k ≠ task_id → tasks m !! k = tasks m0 !! k ∧
                       running_tasks m !! k = running_tasks m0 !! k) →
  tasks m !! task_id = Some t → id t = task_id →
  is_Some (started_at t) → status t = RUNNING ∨ status t = FAILED →
  record_times_ok t →
  lifecycle_ok (settle task_id w now m).2.
Proof.
  intros Hm0 Hfr Ht Hid Hst Hs Hok.
  apply (lifecycle_frame m0 _ task_id); [done|..].
  - intros k Hk. destruct (settle_frame task_id w now m k Hk) as [-> ->].
    by apply Hfr.
  - assert (Hnp : status t ≠ PENDING) by (destruct Hs; congruence).
    assert (Hdone : ∀ t' (X : Prop),
              id t' = id t → started_at t' = started_at t →
              is_Some (completed_at t') →
              status t' = COMPLETED ∨ status t' = FAILED →
              id t' = task_id ∧ record_times_ok t' ∧
              (status t' = PENDING → X)).
    { intros t' X E1 E2 E3 E4. split_and!; [congruence| |].
      - unfold record_times_ok. rewrite E2.
        by destruct E4 as [-> | ->].
      - intros Hp. destruct E4; congruence. }
    intros t'. destruct w as [v|e|r c]; simpl; [|destruct (is_Exception e)|];
      simpl; rewrite ?lookup_alter_eq, ?Ht; simpl; intros [= <-].
    + apply Hdone; simpl; [done|done|by eexists|by left].
    + apply Hdone; simpl; [done|done|by eexists|by right].
    + split_and!; [done|done|]. intros Hp. congruence.
    + split_and!; [done|done|]. intros Hp. congruence.
Qed.

Lemma reachable_lifecycle (m : TaskManager) : reachable m → lifecycle_ok m.
Proof.
  induction 1 as [|m task_id name func now Hm IH _
                  |m task_id name func now e Hm IH Hfresh
                  |m task_id t_start t_end o m' Hm IH Hstep
                  |m task_id now b m' Hm IH Hc].
  - intros k t. simpl. by rewrite lookup_empty.
  - apply (lifecycle_frame m _ task_id); [done|..].
    + intros k Hk. simpl. by rewrite !lookup_insert_ne.
    + intros t'. simpl. rewrite !lookup_insert_eq. intros [= <-].
      split_and!; [done|done|]. intros _. right. by eexists.
  - apply (lifecycle_frame m _ task_id); [done|..].
    + intros k Hk. simpl. by rewrite lookup_insert_ne.
    + intros t'. simpl. rewrite lookup_insert_eq. intros [= <-].
      split_and!; [done|done|]. intros _. left.
      destruct (running_tasks m !! task_id) as [h|] eqn:Eh; [|done].
      destruct (TasksSpec.reachable_ok m Hm) as [_ Hhan].
      destruct (Hhan task_id h Eh) as (t & Ht & _). congruence.
  - pose proof (TasksSpec.reachable_ok m Hm) as [_ Hhan].
    unfold run_step in Hstep.
    destruct (running_tasks m !! task_id) as [h|] eqn:Eh; [|done].
    destruct (Hhan task_id h Eh) as (t & Ht & Hres & Hcoro).
    destruct (IH task_id t Ht) as (Hid & Htimes & Hpend).
    destruct (coro h) as [func|r c|]; [| |done].
    + destruct Hcoro as [Hp Hmc]. rewrite Hmc, Ht in Hstep.
      set (m1 := mkManager _ _) in Hstep.
      assert (m' = (settle task_id func t_end m1).2) as ->
        by (by destruct (settle task_id func t_end m1); simplify_eq).
      unfold record_times_ok in Htimes. rewrite Hp in Htimes.
      destruct Htimes as [Hs0 Hc0].
      apply (settle_lifecycle _ _ _ _ m (mark_running t_start t)).
      * done.
      * intros k Hk. unfold m1. simpl. by rewrite lookup_alter_ne.
      * unfold m1. simpl. by rewrite lookup_alter_eq, Ht.
      * done.
      * by eexists.
      * by left.
      * unfold record_times_ok. simpl. split; [by eexists | done].
    + set (w := if must_cancel h then c else r) in Hstep.
      assert (m' = (settle task_id w t_end m).2) as ->
        by (by destruct (settle task_id w t_end m); simplify_eq).
      apply (settle_lifecycle _ _ _ _ m t); try done.
      unfold record_times_ok in Htimes.
      destruct Hcoro as [Hs|Hs]; rewrite Hs in Htimes; by destruct Htimes.
  - unfold cancel_task in Hc.
    destruct (running_tasks m !! task_id) as [h|] eqn:Eh;
      [|by simplify_eq].
    destruct (tasks m !! task_id) as [t|] eqn:Et; [|done].
    destruct (decide (status t = RUNNING)) as [Hs|Hs]; [|by simplify_eq].
    simplify_eq.
    destruct (IH task_id t Et) as (Hid & Htimes & Hpend).
    unfold record_times_ok in Htimes. rewrite Hs in Htimes.
    apply (lifecycle_frame m _ task_id); [done|..].
    + intros k Hk. simpl. by rewrite !lookup_insert_ne.
    + intros t'. simpl. rewrite !lookup_insert_eq. intros [= <-].
      unfold record_times_ok. simpl.
      split; [done|]. split; [|done]. split; [tauto | by eexists].
Qed.

(** X12. Status, timestamps and registration go together. In every state
    of a manager in use, each record is filed under its own id; a PENDING
    record has neither [started_at] nor [completed_at], and either nothing
    is registered for it in [running_tasks] or its coroutine is registered,
    has not started and has no cancellation pending; a RUNNING record has
    [started_at] but no [completed_at]; a COMPLETED or FAILED record has
    both. An id registered in [running_tasks] always has a record, which is
    not COMPLETED, and which is PENDING while the coroutine has not
    started. A PENDING record with nothing registered does arise: a
    [create_task] that raises at its scheduling step has stored the record
    and registered nothing. *)
Theorem lifecycle_invariant (m : TaskManager) :
  reachable m →
  (∀ k t, tasks m !! k = Some t →
     id t = k ∧
     (status t = PENDING →
        started_at t = None ∧ completed_at t = None ∧
        (running_tasks m !! k = None ∨
         ∃ func, running_tasks m !! k
                 = Some (mkHandle (NotStarted func) false))) ∧
     (status t = RUNNING →
        is_Some (started_at t) ∧ completed_at t = None) ∧
     (status t = COMPLETED ∨ status t = FAILED →
        is_Some (started_at t) ∧ is_Some (completed_at t))) ∧
  (∀ k h, running_tasks m !! k = Some h →
     ∃ t, tasks m !! k = Some t ∧ status t ≠ COMPLETED ∧
          ∀ func, coro h = NotStarted func →
                  status t = PENDING ∧ must_cancel h = false) ∧
  (∀ task_id name func now e, tasks m !! task_id = None →
     let m' := (create_task_with (Raised e) task_id name func now m).2 in
     reachable m' ∧
     tasks m' !! task_id
       = Some (mkTask task_id name PENDING now None None VNone None 0) ∧
     running_tasks m' !! task_id = None).
Proof.
  intros Hm. destruct (TasksSpec.reachable_ok m Hm) as [Hrec Hhan].
  split_and!.
  - intros k t Ht.
    destruct (reachable_lifecycle m Hm k t Ht) as (Hid & Htimes & Hpend).
    unfold record_times_ok in Htimes.
    split_and!; [done|..].
    + intros Hs. rewrite Hs in Htimes. destruct Htimes. auto.
    + intros Hs. by rewrite Hs in Htimes.
    + intros [Hs|Hs]; by rewrite Hs in Htimes.
  - intros k h Hh.
    destruct (Hhan k h Hh) as (t & Ht & Hres & Hcoro).
    exists t. split; [done|]. split.
    + intros Hs.
      destruct (coro h) as [f|r c|];
        [destruct Hcoro as [Hp _]; congruence
        |destruct Hcoro; congruence
        |done].
    + intros func E. by rewrite E in Hcoro.
  - intros task_id name func now e Hfresh m'. split_and!.
    + by apply reach_create_raises.
    + unfold m'. simpl. by rewrite lookup_insert_eq.
    + unfold m'. simpl.
      destruct (running_tasks m !! task_id) as [h|] eqn:Eh; [|done].
      destruct (Hhan task_id h Eh) as (t & Ht & _). congruence.
Qed.

(** The theorem of X12 on a manager holding one task just created. *)
Lemma lifecycle_invariant_witness :
  ∃ t, tasks (create_task "t1" "scan" (Return VNone) 0
                TaskManager_init).2 !! "t1" = Some t ∧
       status t = PENDING.
Proof.
  pose proof (lifecycle_invariant
                (create_task "t1" "scan" (Return VNone) 0 TaskManager_init).2
                (reach_create _ "t1" "scan" (Return VNone) 0 reach_init
                   (lookup_empty _))) as (_ & H & _).
  destruct (H "t1" (mkHandle (NotStarted (Return VNone)) false) eq_refl)
    as (t & Ht & _ & Hp).
  exists t. split; [exact Ht|]. exact (proj1 (Hp _ eq_refl)).
Defined.

(** *** The example tasks *)

Lemma sleeps_suspensions (n : nat) (v : PyVal) :
  suspensions (sleeps n (Return v)) = n ∧
  completion (sleeps n (Return v)) = inl v.
Proof. induction n as [|n [IH1 IH2]]; simpl; [done|]. by rewrite IH1. Qed.

(** A task created for work that sleeps [n] times and returns [v], run
    alone for [n + 1] turns. *)
Lemma sleeping_task_completes (m : TaskManager) (task_id name : string)
    (n : nat) (v : PyVal) (now t_start t_end : Z) (clock : list (Z * Z)) :
  length clock = n →
  ∃ outs m' t,
    run_steps task_id ((t_start, t_end) :: clock)
      (create_task task_id name (sleeps n (Return v)) now m).2
      = Some (outs, m') ∧
    tasks m' !! task_id = Some t ∧ running_tasks m' !! task_id = None ∧
    status t = COMPLETED ∧ result t = v ∧ progress t = 100 ∧
    error t = None ∧ Forall contained outs.
Proof.
  intros Hlen. destruct (sleeps_suspensions n v) as [Hs Hc].
  destruct (TasksSpec.created_runs_to_end m task_id name
              (sleeps n (Return v)) now t_start t_end clock)
    as (outs & m' & Hrun & Hgone & _ & Hfin); [congruence|].
  cbv zeta in Hfin. rewrite Hc in Hfin. destruct Hfin as [Ht Hall].
  eexists outs, m', _. by split_and!.
Qed.

(** X13. The three example tasks run to completion. Created through
    [create_task] and run without cancellation, the report task is
    COMPLETED after eleven turns of the loop, the notification task and the
    scan task after two, each with progress 100, no error, its id out of
    [running_tasks] and its record as result; the report's path is
    [data/reports/<session_id>_<rfp_id>.pdf], and the scan reports one
    opportunity found. *)
Theorem example_tasks_complete (m : TaskManager) (task_id name : string)
    (now t_start t_end : Z) (clock : list (Z * Z)) (stamp : string) :
  (∀ rfp_id session_id,
     length clock = 10%nat →
     ∃ outs m' t,
       run_steps task_id ((t_start, t_end) :: clock)
         (create_task task_id name
            (generate_rfp_report_task rfp_id session_id stamp) now m).2
         = Some (outs, m') ∧
       tasks m' !! task_id = Some t ∧ running_tasks m' !! task_id = None ∧
       status t = COMPLETED ∧ progress t = 100 ∧ error t = None ∧
       result t = VDict
         [("rfp_id", VStr rfp_id); ("session_id", VStr session_id);
          ("report_path",
           VStr ("data/reports/" +:+ session_id +:+ "_" +:+ rfp_id
                 +:+ ".pdf"));
          ("generated_at", VStr stamp)]) ∧
  (∀ user_email message,
     length clock = 1%nat →
     ∃ outs m' t,
       run_steps task_id ((t_start, t_end) :: clock)
         (create_task task_id name
            (send_notification_task user_email message stamp) now m).2
         = Some (outs, m') ∧
       tasks m' !! task_id = Some t ∧ running_tasks m' !! task_id = None ∧
       status t = COMPLETED ∧ progress t = 100 ∧ error t = None ∧
       dict_get "email" (match result t with VDict d => d | _ => [] end)
         = Some (VStr user_email)) ∧
  (∀ keywords days_ahead,
     length clock = 1%nat →
     ∃ outs m' t,
       run_steps task_id ((t_start, t_end) :: clock)
         (create_task task_id name
            (process_rfp_scan_task keywords days_ahead stamp) now m).2
         = Some (outs, m') ∧
       tasks m' !! task_id = Some t ∧ running_tasks m' !! task_id = None ∧
       status t = COMPLETED ∧ progress t = 100 ∧ error t = None ∧
       dict_get "opportunities_found"
                (match result t with VDict d => d | _ => [] end)
         = Some (VInt 1)).
Proof.
  split_and!.
  - intros rfp_id session_id Hlen. unfold generate_rfp_report_task.
    match goal with |- context [sleeps ?n (Return ?v)] =>
      destruct (sleeping_task_completes m task_id name n v now t_start t_end
                  clock Hlen)
        as (outs & m' & t & H1 & H2 & H3 & H4 & H5 & H6 & H7 & _) end.
    exists outs, m', t. by split_and!.
  - intros user_email message Hlen. unfold send_notification_task.
    match goal with |- context [sleeps ?n (Return ?v)] =>
      destruct (sleeping_task_completes m task_id name n v now t_start t_end
                  clock Hlen)
        as (outs & m' & t & H1 & H2 & H3 & H4 & H5 & H6 & H7 & _) end.
    exists outs, m', t. split_and!; try done. by rewrite H5.
  - intros keywords days_ahead Hlen. unfold process_rfp_scan_task.
    match goal with |- context [sleeps ?n (Return ?v)] =>
      destruct (sleeping_task_completes m task_id name n v now t_start t_end
                  clock Hlen)
        as (outs & m' & t & H1 & H2 & H3 & H4 & H5 & H6 & H7 & _) end.
    exists outs, m', t. split_and!; try done. by rewrite H5.
Qed.

(** A task that sleeps, after its first turn and [k] more. *)
Lemma sleeping_task_waits (task_id : string) (rest : Work)
    (clock : list (Z * Z)) :
  ∀ (j : nat) (m : TaskManager),
    running_tasks m !! task_id
      = Some (mkHandle (Suspended (sleeps j rest) (Raise CancelledError))
                       false) →
    (length clock ≤ j)%nat →
    ∃ m',
      run_steps task_id clock m
        = Some (replicate (length clock) Yielded, m') ∧
      tasks m' = tasks m ∧
      running_tasks m' !! task_id
        = Some (mkHandle (Suspended (sleeps (j - length clock) rest)
                                    (Raise CancelledError)) false).
Proof.
  induction clock as [|[t1 t2] clock IH]; intros j m Hh Hlen; simpl.
  - exists m. by rewrite Nat.sub_0_r.
  - destruct j as [|j]; [simpl in Hlen; lia|].
    unfold run_step. rewrite Hh. simpl.
    set (m1 := mkManager _ _).
    destruct (IH j m1) as (m' & Hrun & Ht & Hh').
    { unfold m1. simpl. by rewrite lookup_insert_eq. }
    { simpl in Hlen. lia. }
    exists m'. by rewrite Hrun.
Qed.

(** X14. A report generation cancelled while it sleeps. If the report task
    has been run for [k + 1] turns with [k < 10], it is RUNNING and
    registered; [cancel_task] then returns [True]; at its next turn the
    [CancelledError] leaves the coroutine, the id leaves [running_tasks],
    and the record stays FAILED with error "Task cancelled", the time of the
    cancellation as [completed_at] and no result. *)
Theorem report_task_cancelled_while_sleeping (m : TaskManager)
    (task_id name rfp_id session_id stamp : string)
    (now t_start t_end t_cancel t_next t_next' : Z) (clock : list (Z * Z)) :
  (length clock < 10)%nat →
  ∃ m1 m2 m3 t,
    run_steps task_id ((t_start, t_end) :: clock)
      (create_task task_id name
         (generate_rfp_report_task rfp_id session_id stamp) now m).2
      = Some (replicate (S (length clock)) Yielded, m1) ∧
    cancel_task task_id t_cancel m1 = Ok (true, m2) ∧
    run_step task_id t_next t_next' m2
      = Some (Escaped CancelledError, m3) ∧
    tasks m3 !! task_id = Some t ∧ running_tasks m3 !! task_id = None ∧
    status t = FAILED ∧ error t = Some "Task cancelled" ∧
    result t = VNone ∧ completed_at t = Some t_cancel ∧
    started_at t = Some t_start.
Proof.
  intros Hk. unfold generate_rfp_report_task.
  set (rest := Return _).
  set (m0 := (create_task task_id name (sleeps 10 rest) now m).2).
  set (t0 := mark_running t_start
               (mkTask task_id name PENDING now None None VNone None 0)).
  set (ma := mkManager
               (alter (mark_running t_start) task_id (tasks m0))
               (<[task_id := mkHandle (Suspended (sleeps 9 rest)
                                         (Raise CancelledError)) false]>
                  (running_tasks m0))).
  assert (Hfirst : run_step task_id t_start t_end m0 = Some (Yielded, ma)).
  { unfold run_step, m0. simpl. by rewrite !lookup_insert_eq. }
  destruct (sleeping_task_waits task_id rest clock 9 ma)
    as (m1 & Hrun & Ht1 & Hh1).
  { unfold ma. simpl. by rewrite lookup_insert_eq. }
  { lia. }
  assert (Hrec : tasks m1 !! task_id = Some t0).
  { rewrite Ht1. unfold ma, m0. simpl.
    by rewrite lookup_alter_eq, lookup_insert_eq. }
  set (h2 := mkHandle (Suspended (sleeps (9 - length clock) rest)
                                 (Raise CancelledError)) true).
  set (m2 := mkManager
               (<[task_id := mark_failed "Task cancelled" t_cancel t0]>
                  (tasks m1))
               (<[task_id := h2]> (running_tasks m1))).
  exists m1, m2, (mkManager (tasks m2) (delete task_id (running_tasks m2))),
    (mark_failed "Task cancelled" t_cancel t0).
  split_and!; try done.
  - cbn [run_steps]. rewrite Hfirst. by rewrite Hrun.
  - unfold cancel_task. by rewrite Hh1, Hrec.
  - unfold run_step, m2. simpl. by rewrite lookup_insert_eq.
  - simpl. by rewrite lookup_insert_eq.
  - simpl. by rewrite lookup_delete_eq.
Qed.

(** The theorem of X14 for a report cancelled during its third sleep. *)
Lemma report_task_cancelled_while_sleeping_witness :
  ∃ m1 m2 m3 t,
    run_steps "t1" [(1, 1); (2, 2); (3, 3)]
      (create_task "t1" "report"
         (generate_rfp_report_task "r" "s" "2024-01-01T00:00:00") 0
         TaskManager_init).2
      = Some ([Yielded; Yielded; Yielded], m1) ∧
    cancel_task "t1" 4 m1 = Ok (true, m2) ∧
    run_step "t1" 5 5 m2 = Some (Escaped CancelledError, m3) ∧
    tasks m3 !! "t1" = Some t ∧ running_tasks m3 !! "t1" = None ∧
    status t = FAILED ∧ error t = Some "Task cancelled" ∧
    result t = VNone ∧ completed_at t = Some 4 ∧ started_at t = Some 1.
Proof.
  apply (report_task_cancelled_while_sleeping TaskManager_init "t1" "report"
           "r" "s" "2024-01-01T00:00:00" 0 1 1 4 5 5 [(2, 2); (3, 3)]).
  simpl. lia.
Defined.

End TasksApiSpec.

(** ** The rate limiter *)

Module MiddlewareSpec.
Import Middleware.

Lemma dispatch_config (ip : string) (t : Z) (m : RateLimitMiddleware) :
  calls (dispatch ip t m).2 = calls m ∧ period (dispatch ip t m).2 = period m.
Proof. unfold dispatch. by destruct (bool_decide _). Qed.

Lemma dispatch_other (ip ip' : string) (t : Z) (m : RateLimitMiddleware) :
  ip ≠ ip' → requests_of ip' (dispatch ip t m).2 = requests_of ip' m.
Proof.
  intros Hne. unfold dispatch, requests_of.
  destruct (bool_decide _); simpl; by rewrite lookup_insert_ne.
Qed.

(** What [dispatch] leaves on record for the client it served. *)
Lemma dispatch_same (ip : string) (t : Z) (m : RateLimitMiddleware) :
  requests_of ip (dispatch ip t m).2
  = filter (λ req_time, t - req_time < period m) (requests_of ip m)
    ++ (if is_forwarded (dispatch ip t m).1 then [t] else []).
Proof.
  unfold dispatch. destruct (bool_decide _); simpl; unfold requests_of; simpl;
    rewrite lookup_insert_eq; simpl; by rewrite ?app_nil_r.
Qed.

Lemma dispatch_decision (ip : string) (t : Z) (m : RateLimitMiddleware) :
  is_forwarded (dispatch ip t m).1 = true ↔
  Z.of_nat (length (filter (λ req_time, t - req_time < period m)
                           (requests_of ip m))) < calls m.
Proof.
  unfold dispatch. case_bool_decide; simpl; split; (done || lia).
Qed.

Lemma serve_config (reqs : list (string * Z)) :
  ∀ m, calls (serve reqs m).2 = calls m ∧ period (serve reqs m).2 = period m.
Proof.
  induction reqs as [|[ip t] reqs IH]; intros m; [done|]. simpl.
  destruct (IH (dispatch ip t m).2) as [-> ->]. apply dispatch_config.
Qed.

Lemma forwarded_times_app (ip : string) (l1 l2 : list (string * Z * bool)) :
  forwarded_times ip (l1 ++ l2) = forwarded_times ip l1 ++ forwarded_times ip l2.
Proof. unfold forwarded_times. by rewrite filter_app, !fmap_app. Qed.

Lemma forwarded_times_one (ip ip0 : string) (t0 : Z) (ok : bool) :
  forwarded_times ip [(ip0, t0, ok)]
  = if decide (ip0 = ip) then (if ok then [t0] else []) else [].
Proof.
  unfold forwarded_times. rewrite filter_cons, filter_nil.
  destruct (decide _) as [[Hok Hip]|Hn]; simpl in *.
  - subst. by rewrite decide_True.
  - destruct (decide (ip0 = ip)) as [->|Hne]; [|done].
    destruct ok; [|done]. exfalso. by apply Hn.
Qed.

Lemma tracks_dispatch (m : RateLimitMiddleware) (log : list (string * Z * bool))
    (ip0 : string) (t0 : Z) :
  tracks m log → (∀ x, x ∈ log → x.1.2 ≤ t0) →
  tracks (dispatch ip0 t0 m).2
         (log ++ [(ip0, t0, is_forwarded (dispatch ip0 t0 m).1)]).
Proof.
  intros Htr Hlog ip t Ht.
  destruct (dispatch_config ip0 t0 m) as [_ ->].
  assert (Ht0 : t0 ≤ t).
  { apply (Ht (ip0, t0, is_forwarded (dispatch ip0 t0 m).1)).
    apply elem_of_app. right. left. }
  assert (Hlog' : ∀ x, x ∈ log → x.1.2 ≤ t).
  { intros x Hx. apply Ht. apply elem_of_app. by left. }
  rewrite forwarded_times_app, forwarded_times_one, filter_app.
  destruct (decide (ip0 = ip)) as [->|Hne].
  - rewrite dispatch_same, filter_app. f_equal.
    rewrite list_filter_filter. rewrite <-(Htr ip t Hlog').
    apply list_filter_iff. intros x. split; [by intros [? _]|].
    intros Hx. split; [done|lia].
  - rewrite dispatch_other by done. rewrite (Htr ip t Hlog').
    by rewrite app_nil_r.
Qed.

Lemma serve_window (reqs : list (string * Z)) :
  ∀ (m : RateLimitMiddleware) (log : list (string * Z * bool)),
    tracks m log →
    (∀ x y, x ∈ log → y ∈ reqs → x.1.2 ≤ y.2) →
    Sorted Z.le reqs.*2 →
    ∀ pre ip t ok post,
      (serve reqs m).1 = pre ++ (ip, t, ok) :: post →
      (ok = true ↔
       Z.of_nat (length (forwarded_in_window (period m) ip t (log ++ pre)))
       < calls m).
Proof.
  induction reqs as [|[ip0 t0] reqs IH];
    intros m log Htr Hord Hsorted pre ip t ok post Hs.
  - simpl in Hs. by destruct pre.
  - simpl in Hs.
    assert (Hlog0 : ∀ x, x ∈ log → x.1.2 ≤ t0).
    { intros x Hx. apply (Hord x (ip0, t0)); [done|left]. }
    destruct pre as [|x pre].
    + simpl in Hs. injection Hs as <- <- <- _.
      rewrite app_nil_r. rewrite dispatch_decision.
      unfold forwarded_in_window. by rewrite (Htr ip0 t0 Hlog0).
    + simpl in Hs. injection Hs as <- Hs.
      destruct (dispatch_config ip0 t0 m) as [Ec Ep].
      rewrite <-Ec, <-Ep.
      replace (log ++ (ip0, t0, is_forwarded (dispatch ip0 t0 m).1) :: pre)
        with ((log ++ [(ip0, t0, is_forwarded (dispatch ip0 t0 m).1)]) ++ pre)
        by (by rewrite <-app_assoc).
      apply (IH _ _ (tracks_dispatch m log ip0 t0 Htr Hlog0)) with post;
        [| |done].
      * intros x y [Hx| ->%list_elem_of_singleton]%elem_of_app Hy.
        -- apply Hord; [done | by right].
        -- simpl. simpl in Hsorted. apply Sorted_inv in Hsorted as [Hs1 Hs2].
           assert (Hss : StronglySorted Z.le (t0 :: reqs.*2)).
           { apply Sorted_StronglySorted; [|by constructor].
             intros ???. lia. }
           apply StronglySorted_inv in Hss as [_ Hall].
           rewrite Forall_forall in Hall. apply Hall.
           apply list_elem_of_fmap. by exists y.
      * simpl in Hsorted. by apply Sorted_inv in Hsorted as [? _].
Qed.

(** X15. The limiter enforces a sliding window. When requests arrive with
    times that do not decrease, a request is let through if and only if
    fewer than [calls] earlier requests of the same client were let through
    at times less than [period] before it; requests of other clients and
    requests that were turned away do not count. *)
Theorem rate_limit_sliding_window (calls period : Z)
    (reqs : list (string * Z)) (pre post : list (string * Z * bool))
    (ip : string) (t : Z) (ok : bool) :
  Sorted Z.le reqs.*2 →
  (serve reqs (RateLimitMiddleware_init calls period)).1
    = pre ++ (ip, t, ok) :: post →
  (ok = true ↔
   Z.of_nat (length (forwarded_in_window period ip t pre)) < calls).
Proof.
  intros Hsorted Hs.
  apply (serve_window reqs (RateLimitMiddleware_init calls period) []
           ) with (pre := pre) (post := post); try done.
  intros x y Hx. by apply elem_of_nil in Hx.
Qed.

(** The theorem of X15 on three requests of one client within a second,
    under a limit of two per minute: the third is turned away. *)
Lemma rate_limit_sliding_window_witness :
  false = true ↔
  Z.of_nat (length (forwarded_in_window 60 "10.0.0.1" 2
                      [("10.0.0.1", 0, true); ("10.0.0.1", 1, true)])) < 2.
Proof.
  apply (rate_limit_sliding_window 2 60
           [("10.0.0.1", 0); ("10.0.0.1", 1); ("10.0.0.1", 2)]
           [("10.0.0.1", 0, true); ("10.0.0.1", 1, true)] []
           "10.0.0.1" 2 false).
  - repeat constructor; simpl; lia.
  - vm_compute. reflexivity.
Defined.

(** *** The headers *)

Lemma dispatch_bounded (ip : string) (t : Z) (m : RateLimitMiddleware) :
  (∀ k, Z.of_nat (length (requests_of k m)) ≤ Z.max (calls m) 0) →
  ∀ k, Z.of_nat (length (requests_of k (dispatch ip t m).2))
       ≤ Z.max (calls m) 0.
Proof.
  intros Hm k. destruct (decide (ip = k)) as [->|Hne].
  - rewrite dispatch_same.
    destruct (is_forwarded (dispatch k t m).1) eqn:E.
    + apply dispatch_decision in E. rewrite length_app. simpl. lia.
    + rewrite app_nil_r.
      pose proof (length_filter (λ req_time, t - req_time < period m)
                    (requests_of k m)).
      specialize (Hm k). lia.
  - rewrite dispatch_other by done. apply Hm.
Qed.

Lemma dispatch_keeps_nonempty (ip k : string) (t : Z)
    (m : RateLimitMiddleware) :
  1 ≤ calls m → requests_of k m ≠ [] →
  requests_of k (dispatch ip t m).2 ≠ [].
Proof.
  intros Hc Hk. destruct (decide (ip = k)) as [->|Hne].
  - rewrite dispatch_same.
    destruct (is_forwarded (dispatch k t m).1) eqn:E.
    + intros H'. by apply app_eq_nil in H' as [_ ?].
    + rewrite app_nil_r. intros H'.
      assert (¬ (is_forwarded (dispatch k t m).1 = true)) as Hn by congruence.
      rewrite dispatch_decision, H' in Hn. simpl in Hn. lia.
  - by rewrite dispatch_other.
Qed.

Lemma serve_bounded (reqs : list (string * Z)) :
  ∀ m,
    (∀ k, Z.of_nat (length (requests_of k m)) ≤ Z.max (calls m) 0) →
    ∀ k, Z.of_nat (length (requests_of k (serve reqs m).2))
         ≤ Z.max (calls m) 0.
Proof.
  induction reqs as [|[ip t] reqs IH]; intros m Hm k; [apply Hm|]. simpl.
  destruct (dispatch_config ip t m) as [Ec _]. rewrite <-Ec. apply IH.
  intros k'. rewrite Ec. by apply dispatch_bounded.
Qed.

Lemma serve_keeps_nonempty (reqs : list (string * Z)) (k : string) :
  ∀ m, 1 ≤ calls m → requests_of k m ≠ [] →
       requests_of k (serve reqs m).2 ≠ [].
Proof.
  induction reqs as [|[ip t] reqs IH]; intros m Hc Hk; [done|]. simpl.
  apply IH.
  - by destruct (dispatch_config ip t m) as [-> _].
  - by apply dispatch_keeps_nonempty.
Qed.

(** X16. A limiter never holds more than [calls] request times for a
    client, whatever the order of the times; and the
    [X-RateLimit-Remaining] header of a request that was let through is at
    least 0 and less than [calls], however many other requests were
    dispatched while the request was being processed. *)
Theorem rate_limit_remaining_bounds (calls period : Z)
    (before during : list (string * Z)) (ip : string) (t : Z) :
  let m1 := (serve before (RateLimitMiddleware_init calls period)).2 in
  (∀ k, Z.of_nat (length (requests_of k m1)) ≤ Z.max calls 0) ∧
  ((dispatch ip t m1).1 = Forwarded →
   let m3 := (serve during (dispatch ip t m1).2).2 in
   limit (rate_limit_headers ip t m3) = calls ∧
   0 ≤ remaining (rate_limit_headers ip t m3) < calls).
Proof.
  intros m1.
  assert (Hb1 : ∀ k, Z.of_nat (length (requests_of k m1)) ≤ Z.max calls 0).
  { intros k. apply (serve_bounded before (RateLimitMiddleware_init _ _)).
    intros k'. unfold requests_of. simpl. rewrite lookup_empty. simpl. lia. }
  assert (Hc1 : Middleware.calls m1 = calls)
    by apply (serve_config before (RateLimitMiddleware_init calls period)).
  split; [done|]. intros Hadm m3.
  pose proof (dispatch_config ip t m1) as [Ec2 _].
  pose proof (serve_config during (dispatch ip t m1).2) as [Ec3 _].
  fold m3 in Ec3.
  assert (Hpos : 1 ≤ calls).
  { assert (is_forwarded (dispatch ip t m1).1 = true) as E by by rewrite Hadm.
    apply dispatch_decision in E. lia. }
  assert (Hb3 : Z.of_nat (length (requests_of ip m3)) ≤ Z.max calls 0).
  { unfold m3. rewrite <-Hc1, <-Ec2. apply serve_bounded.
    intros k. rewrite Ec2. apply dispatch_bounded. by rewrite Hc1. }
  assert (Hne : requests_of ip m3 ≠ []).
  { apply serve_keeps_nonempty; [lia|]. rewrite dispatch_same, Hadm. simpl.
    intros H'. by apply app_eq_nil in H' as [_ ?]. }
  unfold rate_limit_headers. simpl. split; [congruence|].
  destruct (requests_of ip m3); [done|]. simpl in *. lia.
Qed.

(** The theorem of X16 on the third request of a client under a limit of
    five. *)
Lemma rate_limit_remaining_bounds_witness :
  0 ≤ remaining
        (rate_limit_headers "10.0.0.1" 2
           (dispatch "10.0.0.1" 2
              (serve [("10.0.0.1", 0); ("10.0.0.1", 1)]
                     (RateLimitMiddleware_init 5 60)).2).2) < 5.
Proof.
  refine (proj2 (proj2 (rate_limit_remaining_bounds 5 60
            [("10.0.0.1", 0); ("10.0.0.1", 1)] [] "10.0.0.1" 2) _)).
  vm_compute. reflexivity.
Defined.

End MiddlewareSpec.

(** ** Metrics *)

Module MetricsSpec.
Import Metrics.

Lemma keep_last_length {A} (n : nat) (l : list A) :
  length (keep_last n l) = Nat.min n (length l).
Proof. unfold keep_last. rewrite length_drop. lia. Qed.

Lemma keep_last_snoc {A} (n : nat) (l : list A) (x : A) :
  keep_last n (keep_last n l ++ [x]) = keep_last n (l ++ [x]).
Proof.
  unfold keep_last. rewrite !length_app, length_drop. simpl.
  destruct (decide (n = 0%nat)) as [->|Hn].
  { rewrite !Nat.sub_0_r, drop_all.
    replace (length l - length l + 1)%nat with 1%nat by lia. simpl.
    symmetry. apply drop_ge. rewrite length_app. simpl. lia. }
  destruct (decide (length l ≤ n)%nat) as [Hle|Hgt].
  - replace (length l - n)%nat with 0%nat by lia. simpl.
    by replace (length l - 0 + 1 - n)%nat with (length l + 1 - n)%nat by lia.
  - replace (length l - (length l - n) + 1 - n)%nat with 1%nat by lia.
    replace (length l + 1 - n)%nat with (S (length l - n)) by lia.
    rewrite (drop_app_le l [x] (S (length l - n))) by lia.
    rewrite drop_app_le by (rewrite length_drop; lia).
    by rewrite drop_drop, Nat.add_1_r.
Qed.

Lemma deque_append_keep_last {A} (maxlen : Z) (x : A) (d : list A) :
  deque_append maxlen x d = keep_last (Z.to_nat maxlen) (d ++ [x]).
Proof. done. Qed.

Section metrics_facts.
Context {float : Type}.
Implicit Types (m : @MetricsCollector float).

(** With a bound that is not negative a recording never fails, and it
    appends to the series of its name alone. *)
Lemma record_metric_series (name k : string) (v : float)
    (tags : option (list (string * string))) (now : Z) m :
  0 ≤ max_points m →
  ∃ m', record_metric name v tags now m = Done m' ∧
        max_points m' = max_points m ∧
        counters m' = counters m ∧ gauges m' = gauges m ∧
        default [] (metrics m' !! k)
        = if decide (k = name)
          then keep_last (Z.to_nat (max_points m))
                 (default [] (metrics m !! name)
                  ++ [mkPoint now v (default [] tags)])
          else default [] (metrics m !! k).
Proof.
  intros Hmax. unfold record_metric.
  destruct (metrics m !! name) as [series|] eqn:E.
  - eexists. split; [done|]. simpl. split_and!; try done.
    destruct (decide (k = name)) as [->|Hne].
    + by rewrite lookup_insert_eq.
    + by rewrite lookup_insert_ne.
  - rewrite decide_False by lia. eexists. split; [done|]. simpl.
    split_and!; try done.
    destruct (decide (k = name)) as [->|Hne].
    + by rewrite lookup_insert_eq.
    + by rewrite lookup_insert_ne.
Qed.

Lemma points_of_snoc (name : string) (recs : list (string * float * Z))
    (r : string * float * Z) :
  points_of name (recs ++ [r])
  = points_of name recs
    ++ (if decide (r.1.1 = name) then [mkPoint r.2 r.1.2 []] else []).
Proof.
  unfold points_of. rewrite filter_app, fmap_app. f_equal.
  rewrite filter_cons, filter_nil. by destruct (decide _).
Qed.

Lemma record_all_series (recs : list (string * float * Z)) (name : string)
    (max : Z) :
  0 ≤ max →
  max_points (record_all recs (MetricsCollector_init max)) = max ∧
  default [] (metrics (record_all recs (MetricsCollector_init max)) !! name)
  = keep_last (Z.to_nat max) (points_of name recs).
Proof.
  intros Hmax. induction recs as [|r recs [IH1 IH2]] using rev_ind.
  - split; [done|]. simpl. by rewrite lookup_empty.
  - unfold record_all in *. rewrite foldl_app. simpl.
    set (m := foldl _ _ recs) in *.
    destruct (record_metric_series r.1.1 name r.1.2 None r.2 m)
      as (m' & -> & E1 & _ & _ & E2); [lia|].
    simpl. split; [congruence|].
    rewrite E2, points_of_snoc, IH1.
    destruct (decide (name = r.1.1)) as [->|Hne].
    + rewrite decide_True by done. rewrite IH2. simpl.
      apply keep_last_snoc.
    + rewrite decide_False by done. by rewrite app_nil_r.
Qed.

(** X17. A metric series is a bounded history. For a collector built with
    a bound [max_points >= 0], after any run of recordings the series of a
    name holds the last [max_points] points recorded under that name, in
    order, and never more than [max_points] of them; recordings under
    other names do not disturb it; and [get_latest_value] is the value
    recorded last under the name, provided [max_points >= 1]. With
    [max_points = 0] nothing is ever retained. *)
Theorem metric_series_is_bounded_history (max : Z)
    (recs : list (string * float * Z)) (name : string) :
  0 ≤ max →
  let m := record_all recs (MetricsCollector_init max) in
  get_metric name None m = keep_last (Z.to_nat max) (points_of name recs) ∧
  Z.of_nat (length (get_metric name None m)) ≤ max ∧
  (1 ≤ max →
   get_latest_value name m = value <$> last (points_of name recs)) ∧
  (max = 0 → get_latest_value name m = None).
Proof.
  intros Hmax m. destruct (record_all_series recs name max Hmax) as [E1 E2].
  fold m in E1, E2. unfold get_metric, get_latest_value.
  rewrite E2. split_and!.
  - done.
  - rewrite keep_last_length. lia.
  - intros H1.
    assert (last (default [] (metrics m !! name))
            = last (points_of name recs)) as Hl.
    { rewrite E2. unfold keep_last.
      destruct (points_of name recs) as [|p ps] using rev_ind; [done|].
      rewrite last_snoc. rewrite length_app. simpl.
      rewrite drop_app_le by lia.
      by rewrite last_snoc. }
    destruct (metrics m !! name) as [pts|]; simpl in *; by rewrite <-Hl.
  - intros ->.
    destruct (metrics m !! name) as [pts|]; simpl in *; [|done].
    rewrite E2. unfold keep_last. simpl. rewrite Nat.sub_0_r.
    by rewrite drop_all.
Qed.

Variable fadd : float → float → float.
Variable fzero : float.

Lemma increment_counter_effect (name : string) (v : float) (now : Z) m :
  0 ≤ max_points m →
  ∃ m', increment_counter fadd fzero name v now m = Done m' ∧
        max_points m' = max_points m ∧ gauges m' = gauges m ∧
        counters m'
        = <[name := fadd (default fzero (counters m !! name)) v]>
            (counters m) ∧
        (1 ≤ max_points m →
         get_latest_value (name +:+ "_total") m'
         = Some (fadd (default fzero (counters m !! name)) v)).
Proof.
  intros Hmax. unfold increment_counter.
  set (total := fadd _ v). set (m1 := mkCollector _ _ _ _).
  destruct (record_metric_series (name +:+ "_total") (name +:+ "_total")
              total None now m1) as (m' & -> & E1 & E2 & E3 & E4); [done|].
  exists m'. split_and!; try done.
  intros H1. unfold get_latest_value.
  rewrite decide_True in E4 by done.
  assert (last (default [] (metrics m' !! (name +:+ "_total")))
          = Some (mkPoint now total [])) as Hl.
  { rewrite E4. unfold keep_last. rewrite length_app. simpl.
    rewrite drop_app_le by (simpl in *; lia). apply last_snoc. }
  destruct (metrics m' !! (name +:+ "_total")) as [pts|]; simpl in *;
    [by rewrite Hl | done].
Qed.

Lemma increment_all_config (name : string) (vs : list (float * Z)) m :
  0 ≤ max_points m →
  max_points (increment_all fadd fzero name vs m) = max_points m.
Proof.
  intros Hmax. unfold increment_all.
  induction vs as [|r vs IH] using rev_ind; [done|].
  rewrite foldl_app. simpl.
  destruct (increment_counter_effect name r.1 r.2
              (foldl (λ m r, state_of (increment_counter fadd fzero name
                                         r.1 r.2 m)) m vs))
    as (m2 & -> & E & _); [lia|]. simpl. congruence.
Qed.

(** X18. A counter is the running sum of its increments. For a collector
    with [max_points >= 0], after a run of [increment_counter] calls on a
    name the counter holds the increments added from left to right onto its
    earlier value (0.0 for a new counter); other counters and the gauges are
    untouched; and, with [max_points >= 1], the latest value of the series
    [<name>_total] is the counter. With a negative [max_points] the first
    increment of a name raises the [ValueError] of the deque, "maxlen must
    be non-negative", yet the counter has been incremented; the series, the
    other counters and the gauges are as before. *)
Theorem counter_is_running_sum (name : string) (vs : list (float * Z)) m :
  (0 ≤ max_points m →
   let m' := increment_all fadd fzero name vs m in
   default fzero (counters m' !! name)
   = foldl fadd (default fzero (counters m !! name)) vs.*1 ∧
   (∀ k, k ≠ name → counters m' !! k = counters m !! k) ∧
   gauges m' = gauges m ∧
   (1 ≤ max_points m → vs ≠ [] →
    get_latest_value (name +:+ "_total") m'
    = Some (foldl fadd (default fzero (counters m !! name)) vs.*1))) ∧
  (max_points m < 0 → metrics m !! (name +:+ "_total") = None →
   ∀ v now,
     ∃ m', increment_counter fadd fzero name v now m
           = Failed (ValueError "maxlen must be non-negative") m' ∧
           counters m' !! name
           = Some (fadd (default fzero (counters m !! name)) v) ∧
           (∀ k, k ≠ name → counters m' !! k = counters m !! k) ∧
           metrics m' = metrics m ∧ gauges m' = gauges m ∧
           max_points m' = max_points m).
Proof.
  split.
  - intros Hmax m'. unfold m'. clear m'.
    induction vs as [|r vs IH] using rev_ind.
    + simpl. by split_and!.
    + unfold increment_all in *. rewrite foldl_app. simpl.
      set (m1 := foldl _ m vs) in *.
      assert (Hmax1 : max_points m1 = max_points m)
        by by apply increment_all_config.
      destruct IH as (IH1 & IH2 & IH3 & _).
      destruct (increment_counter_effect name r.1 r.2 m1)
        as (m2 & -> & E1 & E2 & E3 & E4); [lia|].
      simpl. rewrite fmap_app, foldl_app. simpl.
      split_and!.
      * by rewrite E3, lookup_insert_eq, IH1.
      * intros k Hk. rewrite E3, lookup_insert_ne by done. by apply IH2.
      * congruence.
      * intros H1 _. rewrite E4 by lia. by rewrite IH1.
  - intros Hneg Hnone v now. unfold increment_counter, record_metric. simpl.
    rewrite Hnone. rewrite decide_True by done.
    eexists. split; [done|]. simpl. split_and!; try done.
    + by rewrite lookup_insert_eq.
    + intros k Hk. by rewrite lookup_insert_ne.
Qed.

End metrics_facts.

(** The theorem of X17 on three readings of one gauge kept in a history of
    two. *)
Lemma metric_series_is_bounded_history_witness :
  get_latest_value "cpu"
    (record_all [("cpu", 10, 1); ("cpu", 20, 2); ("cpu", 30, 3)]
                (MetricsCollector_init 2)) = Some 30.
Proof.
  destruct (metric_series_is_bounded_history (float := Z) 2
              [("cpu", 10, 1); ("cpu", 20, 2); ("cpu", 30, 3)] "cpu")
    as (_ & _ & H & _); [lia|].
  rewrite H by lia. vm_compute. reflexivity.
Defined.

End MetricsSpec.

(** ** Health checks *)

Module HealthSpec.
Import Health.







End HealthSpec.

(** ** Facts about authentication *)

Module AuthSpec.
Import Auth.

Lemma py_eq_str_spec v s : Health.py_eq_str v s = true ↔ v = VStr s.
Proof.
  destruct v; simpl; try (split; [discriminate | by intros [=]]).
  rewrite bool_decide_eq_true. split; [by intros -> | by intros [= ->]].
Qed.

Lemma authenticate_user_known email password u :
  authenticate_user email password = Some u →
  ∃ account, dict_get email MOCK_USERS = Some account
    ∧ acc_password account = password
    ∧ u = mkUser (VStr (acc_user_id account)) (VStr (acc_email account))
                 (VStr (acc_role account))
    ∧ acc_user_id account ≠ "".
Proof.
  unfold authenticate_user.
  destruct (dict_get email MOCK_USERS) as [account|] eqn:E; [|done].
  destruct (decide _) as [Hpw|]; [|done]. intros [= <-].
  exists account. split_and!; try done.
  apply dict_get_Some_elem in E. unfold MOCK_USERS in E.
  set_unfold in E. by destruct E as [[= _ ->]|[[= _ ->]|[]]].
Qed.

(** X20: a login hands out a token that names the account. For accepted
    credentials, [create_user_token] encodes a payload whose "sub", "email"
    and "role" are those of the authenticated user and whose "exp" lies the
    configured number of minutes after the clock reading; whenever
    [verify_token] gives back a payload with the same "sub", "email" and
    "role", [get_current_user] returns that very user. *)
Theorem login_round_trip (jwt_encode : list (string * PyVal) → string)
    (verify_token : string → Http (list (string * PyVal)))
    (minutes : Z) (email password : string) (now : Z) (u : User) :
  authenticate_user email password = Some u →
  ∃ payload,
    create_user_token jwt_encode minutes email password now
      = Some (jwt_encode payload)
    ∧ dict_get "sub" payload = Some (user_id u)
    ∧ dict_get "email" payload = Some (Auth.email u)
    ∧ dict_get "role" payload = Some (role u)
    ∧ dict_get "exp" payload
        = Some (VInt (now + minutes * microseconds_per_minute))
    ∧ ∀ decoded,
        verify_token (jwt_encode payload) = Pass decoded →
        dict_get "sub" decoded = dict_get "sub" payload →
        dict_get "email" decoded = dict_get "email" payload →
        dict_get "role" decoded = dict_get "role" payload →
        get_current_user verify_token (jwt_encode payload) = Pass u.
Proof.
  intros Hauth.
  destruct (authenticate_user_known _ _ _ Hauth)
    as (account & _ & _ & -> & Hid).
  set (u := mkUser _ _ _) in *.
  set (payload := token_payload minutes
         [("sub", user_id u); ("email", Auth.email u); ("role", role u)]
         None now).
  assert (Hsub : dict_get "sub" payload = Some (user_id u)) by done.
  assert (Hemail : dict_get "email" payload = Some (Auth.email u)) by done.
  assert (Hrole : dict_get "role" payload = Some (role u)) by done.
  exists payload. unfold create_user_token. rewrite Hauth.
  split_and!; try done.
  intros decoded Hv Hsub' Hemail' Hrole'.
  unfold get_current_user.
  rewrite Hv, Hsub', Hemail', Hrole', Hsub, Hemail, Hrole.
  cbn [default id user_id Auth.email role u py_truthy].
  by rewrite bool_decide_eq_false_2.
Qed.

Lemma login_round_trip_witness :
  ∃ payload,
    create_user_token (λ _, "t") 30 "admin@example.com" "admin123" 0
      = Some "t"
    ∧ dict_get "exp" payload = Some (VInt 1800000000)
    ∧ get_current_user
        (λ _, Pass [("sub", VStr "admin_001");
                    ("email", VStr "admin@example.com");
                    ("role", VStr "admin"); ("exp", VInt 1800)]) "t"
      = Pass (mkUser (VStr "admin_001") (VStr "admin@example.com")
                     (VStr "admin")).
Proof.
  destruct (login_round_trip (λ _, "t")
              (λ _, Pass [("sub", VStr "admin_001");
                          ("email", VStr "admin@example.com");
                          ("role", VStr "admin"); ("exp", VInt 1800)])
              30 "admin@example.com" "admin123" 0
              (mkUser (VStr "admin_001") (VStr "admin@example.com")
                      (VStr "admin")) eq_refl)
    as (payload & Htok & Hsub & Hemail & Hrole & Hexp & Hback).
  exists payload. split; [exact Htok|]. split; [exact Hexp|].
  apply (Hback _ eq_refl).
  - by rewrite Hsub.
  - by rewrite Hemail.
  - by rewrite Hrole.
Defined.

(** X21: what a verified payload lets through. Once [verify_token] returns
    a payload, [get_current_user] raises 401 "Invalid token payload" when
    "sub" is missing or falsy, and otherwise returns the user of the
    payload, with role "user" when the payload has no "role"; the checker
    of [require_role r] lets a user pass exactly when the role is [r] or
    "admin" and raises 403 otherwise, so a payload without a role passes
    only the check for "user". *)
Theorem role_gate (verify_token : string → Http (list (string * PyVal)))
    (token : string) (payload : list (string * PyVal)) :
  verify_token token = Pass payload →
  let sub := default VNone (dict_get "sub" payload) in
  (py_truthy sub = false →
     get_current_user verify_token token
       = HTTPException 401 "Invalid token payload")
  ∧ (py_truthy sub = true →
     ∃ u, get_current_user verify_token token = Pass u
       ∧ user_id u = sub
       ∧ Auth.email u = default VNone (dict_get "email" payload)
       ∧ (∀ v, dict_get "role" payload = Some v → role u = v)
       ∧ (dict_get "role" payload = None →
            ∀ r, require_role r u = Pass u ↔ r = "user")
       ∧ ∀ r,
           (require_role r u = Pass u
              ↔ role u = VStr r ∨ role u = VStr "admin")
           ∧ (require_role r u ≠ Pass u →
                require_role r u
                  = HTTPException 403 "Insufficient permissions")).
Proof.
  intros Hv sub. unfold get_current_user. rewrite Hv. fold sub.
  split; [by intros ->|]. intros ->.
  eexists. split; [reflexivity|]. cbn [user_id Auth.email role].
  assert (Hgate : ∀ (u : User) r,
    (require_role r u = Pass u ↔ role u = VStr r ∨ role u = VStr "admin")
    ∧ (require_role r u ≠ Pass u →
         require_role r u = HTTPException 403 "Insufficient permissions")).
  { intros u r. unfold require_role.
    destruct (Health.py_eq_str (role u) r) eqn:E1;
      destruct (Health.py_eq_str (role u) "admin") eqn:E2; simpl;
      try apply py_eq_str_spec in E1; try apply py_eq_str_spec in E2;
      (split; [split; [try done; auto|try done]|try done]).
    intros [H|H]; apply py_eq_str_spec in H; congruence. }
  split_and!; try done.
  - by intros v ->.
  - intros Hnone r. rewrite Hnone.
    change (default (VStr "user") None) with (VStr "user").
    rewrite (proj1 (Hgate _ r)). cbn [role].
    split; [|intros ->; by left].
    by intros [[= ->]|[=]].
Qed.

Lemma role_gate_witness :
  ∃ u, get_current_user (λ _, Pass [("sub", VStr "user_001")]) "t" = Pass u
    ∧ role u = VStr "user"
    ∧ require_role "user" u = Pass u
    ∧ require_admin u = HTTPException 403 "Insufficient permissions".
Proof.
  destruct (role_gate (λ _, Pass [("sub", VStr "user_001")]) "t" _ eq_refl)
    as [_ H].
  destruct (H eq_refl) as (u & Hu & _ & _ & _ & Hdef & Hgate).
  exists u. split; [exact Hu|].
  injection Hu as <-. split; [reflexivity|].
  split; [by apply (Hdef eq_refl)|].
  apply (Hgate "admin"). by intros H'%(Hdef eq_refl).
Defined.

(** X22: the expiry of a token. [create_access_token] encodes the given
    data with "exp" set, over any "exp" the data had, and every other key
    as given; the expiry is the clock reading plus [expires_delta] when
    that is given and not zero, and plus the configured default otherwise,
    so a delta of zero gives the same token as no delta. *)
Theorem token_expiry (jwt_encode : list (string * PyVal) → string)
    (minutes : Z) (data : list (string * PyVal))
    (expires_delta : option Z) (now : Z) :
  let lifetime :=
    match expires_delta with
    | Some delta => if decide (delta = 0)
                    then minutes * microseconds_per_minute else delta
    | None => minutes * microseconds_per_minute
    end in
  ∃ payload,
    create_access_token jwt_encode minutes data expires_delta now
      = jwt_encode payload
    ∧ dict_get "exp" payload = Some (VInt (now + lifetime))
    ∧ (∀ k, k ≠ "exp" → dict_get k payload = dict_get k data)
    ∧ length payload
        = (if dict_mem "exp" data then length data else S (length data))
    ∧ create_access_token jwt_encode minutes data (Some 0) now
        = create_access_token jwt_encode minutes data None now.
Proof.
  intros lifetime. eexists. split; [reflexivity|].
  unfold token_payload. split_and!.
  - rewrite dict_get_set_eq. f_equal. f_equal. unfold lifetime.
    destruct expires_delta as [delta|]; [|done]. by destruct (decide _).
  - intros k Hk. by apply dict_get_set_ne.
  - apply dict_set_length.
  - reflexivity.
Qed.

End AuthSpec.
